(** * SignerAgent (src/agent.ts): request routing, response correlation and
    delegation caching.

    The agent answers [call], [query], [readState] and
    [createReadStateRequest] either with a delegation identity over the
    underlying HTTP agent, or through an external signer whose certified
    answer is parked in [readStateResponses] until it is read back.

    The class is embedded as functions in a state-and-exception monad over a
    heap that holds the two private collections of the instance, the
    contents of the key/value stores, the state of the outside world and
    the list of calls made to the collaborators. *)

From Stdlib Require Import ZArith List String Lia.
From Stdlib Require Import Strings.Byte.
From stdpp Require Import base option gmap sets list strings.

Local Open Scope string_scope.

(** ** Byte buffers and principals *)

(** [ArrayBuffer] / [Uint8Array]. *)
Abbreviation Bytes := (list Byte.byte).

#[global] Instance byte_eq_decision : EqDecision Byte.byte := Byte.byte_eq_dec.

Definition byte_val (b : Byte.byte) : Z := Z.of_N (Byte.to_N b).

(** [compare] of @dfinity/agent on two buffers: the difference of the
    lengths when they differ, else the difference of the first two bytes
    that differ, else 0. *)
Fixpoint compare_same_length (u1 u2 : Bytes) : Z :=
  match u1, u2 with
  | x :: u1', y :: u2' =>
      if decide (x = y) then compare_same_length u1' u2'
      else byte_val x - byte_val y
  | _, _ => 0
  end.

Definition compare (b1 b2 : Bytes) : Z :=
  if decide (length b1 = length b2) then compare_same_length b1 b2
  else Z.of_nat (length b1) - Z.of_nat (length b2).

(** A principal is its byte array. *)
Record Principal := mkPrincipal { principal_arr : Bytes }.

#[global] Instance Principal_eq_decision : EqDecision Principal.
Proof. solve_decision. Defined.

(** [Principal.compareTo]: byte-wise on the common prefix, then by length;
    the answer is one of "lt", "eq", "gt". *)
Fixpoint compare_arr (a b : Bytes) : comparison :=
  match a, b with
  | [], [] => Eq
  | [], _ :: _ => Lt
  | _ :: _, [] => Gt
  | x :: a', y :: b' =>
      if (byte_val x <? byte_val y)%Z then Lt
      else if (byte_val y <? byte_val x)%Z then Gt
      else compare_arr a' b'
  end.

Definition compareTo (p other : Principal) : comparison :=
  compare_arr (principal_arr p) (principal_arr other).

(** [x === "eq"] on the answer of [compareTo]. *)
Definition is_eq (c : comparison) : bool :=
  match c with Eq => true | _ => false end.

(** [Principal | string], the type of the [canisterId] arguments. *)
Inductive PrincipalLike :=
| IsPrincipal (p : Principal)
| IsText (text : string).

(** ** Errors and results *)

Inductive Exn :=
| SignerAgentError (message : string)
| TypeError (message : string)
| ForeignError (message : string).

Inductive Outcome (A : Type) :=
| Returned (a : A)
| Thrown (e : Exn).
Arguments Returned {A} a.
Arguments Thrown {A} e.

(** ** Requests and responses *)

(** The [options] of [call], also [QueryFields]. *)
Record CallOptions := {
  methodName : string;
  arg : Bytes;
  effectiveCanisterId : option PrincipalLike
}.

(** [CallRequest], as decoded from the signer's content map. *)
Record CallRequest := {
  request_type : string;
  canister_id : Principal;
  method_name : string;
  request_arg : Bytes;          (* arg *)
  request_sender : Principal;   (* sender *)
  ingress_expiry : Z;
  nonce : option Bytes
}.

(** [SubmitRequestType.Call]. *)
Definition SubmitRequestType_Call : string := "call".
(** [RequestStatusResponseStatus.Replied]. *)
Definition RequestStatusResponseStatus_Replied : string := "replied".

Record HttpDetails := {
  ok : bool;
  status : Z;
  statusText : string;
  body : option Bytes;
  headers : list (string * string)
}.

Record SubmitResponse := {
  requestId : Bytes;
  response : HttpDetails
}.

(** [ApiQueryResponse]. The payload of a reply is [option]: the source reads
    it with a non-null assertion, which is erased at run time. *)
Inductive ApiQueryResponse :=
| QueryReplied (reply_arg : option Bytes) (httpDetails : HttpDetails)
| QueryRejected (reject_code : Z) (reject_message : string)
    (httpDetails : HttpDetails).

Record ReadStateOptions := { paths : list (list Bytes) }.

Record ReadStateResponse := { certificate : Bytes }.

(** The answer of [signer.callCanister]. *)
Record CallCanisterResponse := {
  contentMap : Bytes;
  signer_certificate : Bytes
}.

(** A label of a path handed to [certificate.lookup]. *)
Inductive Label :=
| LabelBuf (b : Bytes)
| LabelStr (s : string).

(** ** Delegation chains *)

Record Delegation := {
  pubkey : Bytes;
  expiration : Z;
  delegation_targets : option (list Principal)
}.

Record SignedDelegation := {
  delegation : Delegation;
  signature : Bytes
}.

Record DelegationChain := {
  delegations : list SignedDelegation;
  publicKey : Bytes
}.

Inductive DelegationKeyType := ECDSA_KEY_LABEL | ED25519_KEY_LABEL.

(** ** Opaque objects of the platform *)

(** Objects the agent only passes around: their internals belong to
    @dfinity/agent, @dfinity/identity and the browser. *)
Class Handles := {
  World : Type;              (* everything outside the agent: signer, network, clock, key generator *)
  HttpAgent : Type;
  SignIdentity : Type;       (* the identity of [options.delegation.identity] *)
  CryptoKeyPair : Type;
  Ed25519KeyIdentity : Type;
  ECDSAKeyIdentity : Type;
  Certificate : Type;        (* a verified certificate *)
  BlsVerify : Type;
  Crypto : Type;
  ReadStateRequest : Type
}.

Section Model.
Context `{Handles}.

(** What a store holds: a string or a key pair. *)
Inductive StorageValue :=
| SVString (s : string)
| SVKeyPair (k : CryptoKeyPair).

(** The identities [createDelegationBaseIdentity] generates. *)
Inductive KeyIdentity :=
| Ed25519 (k : Ed25519KeyIdentity)
| ECDSA (k : ECDSAKeyIdentity).

Inductive BaseIdentity :=
| Supplied (i : SignIdentity)
| Generated (k : KeyIdentity).

(** [DelegationIdentity.fromDelegation(baseIdentity, delegationChain)]. *)
Record DelegationIdentity := fromDelegation {
  inner : BaseIdentity;
  chain : DelegationChain
}.

(** The two storage objects in play: the [IdbStorage] the constructor makes
    and the object of [options.storage]. *)
Inductive SignerAgentStorage := IdbStorage | OptionsStorage.

Record DelegationOptions := {
  identity : option SignIdentity;
  targets : option (list Principal);
  keyType : option DelegationKeyType
}.

(** [SignerAgentOptions]; its required members [signer] and [getPrincipal]
    are the collaborators below. *)
Record SignerAgentOptions := {
  opt_crypto : option Crypto;
  opt_agent : option HttpAgent;
  opt_blsVerify : option BlsVerify;
  opt_storage : option SignerAgentStorage;
  opt_delegation : option DelegationOptions
}.

(** A computation of a collaborator: it may throw, and it moves the world. *)
Definition Eff (A : Type) : Type := World -> Outcome A * World.

(** Library functions and collaborators. *)
Class Collaborators := {
  (* @dfinity/principal *)
  Principal_fromText : string -> option Principal;
  Principal_toText : Principal -> string;
  Principal_selfAuthenticating : Bytes -> Principal;
  (* buffer, encoding *)
  base64 : Bytes -> string;
  TextDecoder_decode : Bytes -> string;
  TextEncoder_encode : string -> Bytes;
  (* ./utils/cbor and @dfinity/agent *)
  decode : Bytes -> Outcome CallRequest;
  requestIdOf : CallRequest -> Bytes;
  Certificate_create :
    Bytes -> option Bytes -> Principal -> option BlsVerify -> Eff Certificate;
  Certificate_lookup : Certificate -> list Label -> option Bytes;
  (* @dfinity/identity *)
  DelegationChain_fromJSON : string -> Outcome DelegationChain;
  DelegationChain_stringify : DelegationChain -> string;
  isDelegationValid : DelegationChain -> option (list Principal) -> World -> bool;
  SignIdentity_toDer : SignIdentity -> Bytes;
  Ed25519_toDer : Ed25519KeyIdentity -> Bytes;
  ECDSA_toDer : ECDSAKeyIdentity -> Bytes;
  Ed25519_generate : Bytes -> Ed25519KeyIdentity;
  Ed25519_fromJSON : string -> Outcome Ed25519KeyIdentity;
  Ed25519_stringify : Ed25519KeyIdentity -> string;
  ECDSA_generate : Eff ECDSAKeyIdentity;
  ECDSA_fromKeyPair : CryptoKeyPair -> Outcome ECDSAKeyIdentity;
  ECDSA_getKeyPair : ECDSAKeyIdentity -> CryptoKeyPair;
  (* the browser *)
  window_crypto : Crypto;
  getRandomValues : Crypto -> nat -> Eff Bytes;
  (* options.getPrincipal and options.signer *)
  options_getPrincipal : Eff Principal;
  signer_callCanister :
    Principal -> Principal -> string -> Bytes -> Eff CallCanisterResponse;
  signer_getDelegation :
    Principal -> Bytes -> option (list Principal) -> Eff DelegationChain;
  (* the underlying HTTP agent *)
  new_HttpAgent : HttpAgent;
  agent_rootKey : HttpAgent -> World -> option Bytes;
  agent_call :
    HttpAgent -> Principal -> CallOptions -> DelegationIdentity ->
    Eff SubmitResponse;
  agent_query :
    HttpAgent -> PrincipalLike -> CallOptions -> DelegationIdentity ->
    Eff ApiQueryResponse;
  agent_readState :
    HttpAgent -> PrincipalLike -> ReadStateOptions ->
    option DelegationIdentity -> Eff ReadStateResponse;
  agent_createReadStateRequest :
    HttpAgent -> ReadStateOptions -> option DelegationIdentity ->
    Eff ReadStateRequest
}.

Context `{Collaborators}.

(** [identity.getPublicKey().toDer()]. *)
Definition getPublicKey_toDer (i : BaseIdentity) : Bytes :=
  match i with
  | Supplied s => SignIdentity_toDer s
  | Generated (Ed25519 k) => Ed25519_toDer k
  | Generated (ECDSA k) => ECDSA_toDer k
  end.

(** [Principal.from]: a principal is returned as it is, a text is parsed. *)
Definition Principal_from (c : PrincipalLike) : Outcome Principal :=
  match c with
  | IsPrincipal p => Returned p
  | IsText t =>
      match Principal_fromText t with
      | Some p => Returned p
      | None => Thrown (ForeignError "Principal.fromText")
      end
  end.

(** ** The calls the agent makes to its collaborators *)

Inductive Event :=
| GetPrincipal
| CallCanister (canisterId sender : Principal) (method : string) (arg : Bytes)
| GetDelegation (principal : Principal) (publicKey : Bytes)
    (targets : option (list Principal))
| AgentCall (target : Principal) (options : CallOptions)
    (identity : DelegationIdentity)
| AgentQuery (canisterId : PrincipalLike) (options : CallOptions)
    (identity : DelegationIdentity)
| AgentReadState (canisterId : PrincipalLike) (options : ReadStateOptions)
    (identity : option DelegationIdentity)
| AgentCreateReadStateRequest (options : ReadStateOptions)
    (identity : option DelegationIdentity)
| StorageGet (store : SignerAgentStorage) (key : string)
| StorageSet (store : SignerAgentStorage) (key : string) (value : StorageValue)
| CertificateCreate (certificate : Bytes) (canisterId : Principal)
| GenerateECDSA
| RandomValues (n : nat).

(** ** The heap *)

Record Heap := mkHeap {
  readStateResponses : gmap string ReadStateResponse;  (* this.readStateResponses *)
  delegatedRequestIds : gset string;                   (* this.delegatedRequestIds *)
  idb : gmap string StorageValue;        (* what the IdbStorage holds *)
  custom : gmap string StorageValue;     (* what the object of options.storage holds *)
  world : World;
  trace : list Event                     (* calls made so far, oldest first *)
}.

(** The heap after collaborators were called: the world has moved and the
    calls are on record; the collections and the stores are as before. *)
Definition moved (h : Heap) (w : World) (events : list Event) : Heap :=
  mkHeap (readStateResponses h) (delegatedRequestIds h) (idb h) (custom h) w
    (trace h ++ events).

(** Events by kind. *)
Definition is_AgentCall (e : Event) : bool :=
  match e with AgentCall _ _ _ => true | _ => false end.
Definition is_AgentQuery (e : Event) : bool :=
  match e with AgentQuery _ _ _ => true | _ => false end.
Definition is_CallCanister (e : Event) : bool :=
  match e with CallCanister _ _ _ _ => true | _ => false end.
Definition is_GetDelegation (e : Event) : bool :=
  match e with GetDelegation _ _ _ => true | _ => false end.
Definition on_OptionsStorage (e : Event) : bool :=
  match e with
  | StorageGet OptionsStorage _ | StorageSet OptionsStorage _ _ => true
  | _ => false
  end.

(** The instance: the members the constructor sets once. The two private
    collections live in the heap. *)
Record SignerAgent := {
  this_options : SignerAgentOptions;
  this_agent : HttpAgent;
  this_storage : SignerAgentStorage
}.

(** ** The monad of the methods *)

Definition M (A : Type) : Type := Heap -> Outcome A * Heap.

Definition ret {A} (a : A) : M A := fun h => (Returned a, h).

Definition throw {A} (e : Exn) : M A := fun h => (Thrown e, h).

Definition bind {A B} (m : M A) (k : A -> M B) : M B :=
  fun h =>
    match m h with
    | (Returned a, h') => k a h'
    | (Thrown e, h') => (Thrown e, h')
    end.

(** A function of a library that may throw. *)
Definition lift {A} (o : Outcome A) : M A := fun h => (o, h).

(** An awaited call to a collaborator: recorded, then run on the world. *)
Definition perform {A} (e : Event) (f : Eff A) : M A :=
  fun h =>
    let (r, w) := f (world h) in (r, moved h w [e]).

(** A synchronous look at the world (a getter, the clock). *)
Definition observe {A} (f : World -> A) : M A :=
  fun h => (Returned (f (world h)), h).

Definition store_of (s : SignerAgentStorage) (h : Heap) : gmap string StorageValue :=
  match s with
  | IdbStorage => idb h
  | OptionsStorage => custom h
  end.

(** Modelled from the spec: the storage classes of ./storage are not among
    the sources; a store is a capability with [get(key) -> value |
    undefined] and [set(key, value)] over string keys. *)
Definition storage_get (s : SignerAgentStorage) (key : string) :
  M (option StorageValue) :=
  fun h =>
    (Returned (store_of s h !! key), moved h (world h) [StorageGet s key]).

(** Modelled from the spec: see [storage_get]. *)
Definition storage_set (s : SignerAgentStorage) (key : string)
  (value : StorageValue) : M unit :=
  fun h =>
    (Returned tt,
     match s with
     | IdbStorage =>
         mkHeap (readStateResponses h) (delegatedRequestIds h)
           (<[key := value]> (idb h)) (custom h) (world h)
           (trace h ++ [StorageSet s key value])
     | OptionsStorage =>
         mkHeap (readStateResponses h) (delegatedRequestIds h)
           (idb h) (<[key := value]> (custom h)) (world h)
           (trace h ++ [StorageSet s key value])
     end).

(** [this.readStateResponses.get(key)] *)
Definition readStateResponses_get (key : string) : M (option ReadStateResponse) :=
  fun h => (Returned (readStateResponses h !! key), h).

(** [this.readStateResponses.set(key, value)] *)
Definition readStateResponses_set (key : string) (value : ReadStateResponse) :
  M unit :=
  fun h =>
    (Returned tt,
     mkHeap (<[key := value]> (readStateResponses h)) (delegatedRequestIds h)
       (idb h) (custom h) (world h) (trace h)).

(** [this.readStateResponses.delete(key)] *)
Definition readStateResponses_delete (key : string) : M unit :=
  fun h =>
    (Returned tt,
     mkHeap (delete key (readStateResponses h)) (delegatedRequestIds h)
       (idb h) (custom h) (world h) (trace h)).

(** [this.delegatedRequestIds.has(key)] *)
Definition delegatedRequestIds_has (key : string) : M bool :=
  fun h => (Returned (bool_decide (key ∈ delegatedRequestIds h)), h).

(** [this.delegatedRequestIds.add(key)] *)
Definition delegatedRequestIds_add (key : string) : M unit :=
  fun h =>
    (Returned tt,
     mkHeap (readStateResponses h) ({[key]} ∪ delegatedRequestIds h)
       (idb h) (custom h) (world h) (trace h)).

(** [this.delegatedRequestIds.delete(key)] *)
Definition delegatedRequestIds_delete (key : string) : M unit :=
  fun h =>
    (Returned tt,
     mkHeap (readStateResponses h) (delegatedRequestIds h ∖ {[key]})
       (idb h) (custom h) (world h) (trace h)).

End Model.

Notation "'let*' x ':=' m 'in' k" := (bind m (fun x => k))
  (at level 10, x name, m at level 100, k at level 200).
Notation "m ';;' k" := (bind m (fun _ => k))
  (at level 100, k at level 200, right associativity).

(** ** The class SignerAgent *)

Section Agent.
Context {HH : Handles} {CC : Collaborators}.

(** [constructor(options)]: the HTTP agent is the supplied one or a new
    one; the storage is a new [IdbStorage]. *)
Definition constructor (options : SignerAgentOptions) : SignerAgent :=
  {| this_options := options;
     this_agent := default new_HttpAgent (opt_agent options);
     this_storage := IdbStorage |}.

(** The heap right after construction: both collections are empty. *)
Definition fresh_heap (idb0 custom0 : gmap string StorageValue) (w : World) :
  Heap :=
  mkHeap ∅ ∅ idb0 custom0 w [].

Variable this : SignerAgent.

(** [this.options.delegation?.targets] *)
Definition delegation_targets_opt : option (list Principal) :=
  match opt_delegation (this_options this) with
  | Some d => targets d
  | None => None
  end.

(** [getCrypto()] *)
Definition getCrypto : Crypto :=
  default window_crypto (opt_crypto (this_options this)).

(** [setDelegationChain(delegationChain)]. The key is built from the chain
    itself; [slice(-1)[0]] of an empty array is undefined, and reading a
    member of it throws. *)
Definition setDelegationChain (delegationChain : DelegationChain) : M unit :=
  match last (delegations delegationChain) with
  | None => throw (TypeError "Cannot read properties of undefined")
  | Some terminal =>
      storage_set (this_storage this)
        ("delegation-chain-"
           +:+ Principal_toText
                 (Principal_selfAuthenticating (publicKey delegationChain))
           +:+ "-" +:+ base64 (pubkey (delegation terminal)))
        (SVString (DelegationChain_stringify delegationChain))
  end.

(** The branch of [getDelegationChain] that asks the signer. *)
Definition requestDelegationChain (principal : Principal) (publicKey : Bytes) :
  M DelegationChain :=
  let* newDelegationChain :=
    perform (GetDelegation principal publicKey delegation_targets_opt)
      (signer_getDelegation principal publicKey delegation_targets_opt) in
  setDelegationChain newDelegationChain;;
  ret newDelegationChain.

(** [getDelegationChain(principal, publicKey)] *)
Definition getDelegationChain (principal : Principal) (publicKey : Bytes) :
  M DelegationChain :=
  let* json :=
    storage_get (this_storage this)
      ("delegation-chain-" +:+ Principal_toText principal
         +:+ "-" +:+ base64 publicKey) in
  match json with
  | Some (SVKeyPair _) =>
      throw (SignerAgentError "Invalid delegation chain in storage")
  | None => requestDelegationChain principal publicKey
  | Some (SVString json) =>
      if String.eqb json "" then requestDelegationChain principal publicKey
      else
        let* cached := lift (DelegationChain_fromJSON json) in
        let* valid := observe (isDelegationValid cached delegation_targets_opt) in
        if negb valid then requestDelegationChain principal publicKey
        else lift (DelegationChain_fromJSON json)
  end.

(** [createDelegationBaseIdentity()] *)
Definition createDelegationBaseIdentity : M KeyIdentity :=
  match opt_delegation (this_options this) ≫= keyType with
  | Some ED25519_KEY_LABEL =>
      let* seed := perform (RandomValues 32) (getRandomValues getCrypto 32) in
      ret (Ed25519 (Ed25519_generate seed))
  | _ =>
      let* k := perform GenerateECDSA ECDSA_generate in
      ret (ECDSA k)
  end.

(** [setDelegationBaseIdentity(sender, identity)] *)
Definition setDelegationBaseIdentity (sender : Principal)
  (identity : KeyIdentity) : M unit :=
  let value :=
    match identity with
    | Ed25519 k => SVString (Ed25519_stringify k)
    | ECDSA k => SVKeyPair (ECDSA_getKeyPair k)
    end in
  storage_set (this_storage this)
    ("delegation-identity-" +:+ Principal_toText sender) value.

(** The branch of [getDelegationBaseIdentity] taken on a miss. *)
Definition newDelegationBaseIdentity (sender : Principal) : M BaseIdentity :=
  let* identity := createDelegationBaseIdentity in
  setDelegationBaseIdentity sender identity;;
  ret (Generated identity).

(** [getDelegationBaseIdentity(sender)] *)
Definition getDelegationBaseIdentity (sender : Principal) : M BaseIdentity :=
  match opt_delegation (this_options this) ≫= identity with
  | Some i => ret (Supplied i)
  | None =>
      let* value :=
        storage_get (this_storage this)
          ("delegation-identity-" +:+ Principal_toText sender) in
      match value with
      | None => newDelegationBaseIdentity sender
      | Some (SVString json) =>
          if String.eqb json "" then newDelegationBaseIdentity sender
          else
            let* k := lift (Ed25519_fromJSON json) in
            ret (Generated (Ed25519 k))
      | Some (SVKeyPair keyPair) =>
          let* k := lift (ECDSA_fromKeyPair keyPair) in
          ret (Generated (ECDSA k))
      end
  end.

(** [getDelegationIdentity(principal)]: nothing without
    [options.delegation]. The test [if (delegationChain)] always passes:
    [getDelegationChain] returns either the object [fromJSON] builds or the
    answer of the signer after [setDelegationChain] has read its members,
    which throws on undefined or null. *)
Definition getDelegationIdentity (principal : Principal) :
  M (option DelegationIdentity) :=
  match opt_delegation (this_options this) with
  | None => ret None
  | Some _ =>
      let* baseIdentity := getDelegationBaseIdentity principal in
      let* delegationChain :=
        getDelegationChain principal (getPublicKey_toDer baseIdentity) in
      ret (Some (fromDelegation baseIdentity delegationChain))
  end.

(** The condition of lines 134-140 and 205-211. The parameter of the arrow
    function is named [target] too, so inside it both sides of the
    comparison are the element of the list. *)
Definition delegationCondition (target : Principal) : bool :=
  match opt_delegation (this_options this) with
  | None => false
  | Some d =>
      match targets d with
      | None => true
      | Some ts => existsb (fun target => is_eq (compareTo target target)) ts
      end
  end.

(** Lines 162-171: does the decoded request differ from what was asked? *)
Definition contentMismatch (target sender : Principal) (options : CallOptions)
  (requestBody : CallRequest) : bool :=
  negb (String.eqb SubmitRequestType_Call (request_type requestBody))
  || negb (is_eq (compareTo target (canister_id requestBody)))
  || negb (String.eqb (methodName options) (method_name requestBody))
  || negb (compare (arg options) (request_arg requestBody) =? 0)%Z
  || negb (is_eq (compareTo sender (request_sender requestBody))).

(** Lines 155-185 of [call]: the call made through the signer. *)
Definition callThroughSigner (sender target : Principal)
  (options : CallOptions) : M SubmitResponse :=
  let* signed :=
    perform (CallCanister target sender (methodName options) (arg options))
      (signer_callCanister target sender (methodName options) (arg options)) in
  let* requestBody := lift (decode (contentMap signed)) in
  if contentMismatch target sender options requestBody then
    throw (SignerAgentError "Received invalid content map from signer ")
  else
    let requestId := requestIdOf requestBody in
    readStateResponses_set (base64 requestId)
      {| certificate := signer_certificate signed |};;
    ret {| requestId := requestId;
           response :=
             {| ok := true;
                status := 200%Z;
                statusText := "Call has been sent over ICRC-25 JSON-RPC";
                body := None;
                headers := [] |} |}.

(** [call(canisterId, options)] *)
Definition call (canisterId : PrincipalLike) (options : CallOptions) :
  M SubmitResponse :=
  let* sender := perform GetPrincipal options_getPrincipal in
  let* target := lift (Principal_from canisterId) in
  if delegationCondition target then
    let* delegationIdentity := getDelegationIdentity sender in
    match delegationIdentity with
    | Some delegationIdentity =>
        let* submitResponse :=
          perform (AgentCall target options delegationIdentity)
            (agent_call (this_agent this) target options delegationIdentity) in
        delegatedRequestIds_add (base64 (requestId submitResponse));;
        ret submitResponse
    | None => callThroughSigner sender target options
    end
  else callThroughSigner sender target options.

(** Lines 218-256 of [query]: the query upgraded to a call. *)
Definition queryThroughSigner (canisterId : PrincipalLike) (target : Principal)
  (options : CallOptions) : M ApiQueryResponse :=
  let* submitResponse := call canisterId options in
  let requestKey := base64 (requestId submitResponse) in
  let* readStateResponse := readStateResponses_get requestKey in
  match readStateResponse with
  | None => throw (SignerAgentError "Read state response could not be found")
  | Some readStateResponse =>
      readStateResponses_delete requestKey;;
      let* rootKey := observe (agent_rootKey (this_agent this)) in
      let* certificate :=
        perform (CertificateCreate (certificate readStateResponse) target)
          (Certificate_create (certificate readStateResponse) rootKey target
             (opt_blsVerify (this_options this))) in
      let path :=
        [LabelBuf (TextEncoder_encode "request_status");
         LabelBuf (requestId submitResponse)] in
      let maybeBuf :=
        Certificate_lookup certificate
          (path ++ [LabelBuf (TextEncoder_encode "status")]) in
      let status := TextDecoder_decode <$> maybeBuf in
      if bool_decide (status = Some RequestStatusResponseStatus_Replied) then
        ret (QueryReplied
               (Certificate_lookup certificate (path ++ [LabelStr "reply"]))
               {| ok := true;
                  status := 200%Z;
                  statusText :=
                    "Certificate with reply has been received over ICRC-25 JSON-RPC";
                  body := None;
                  headers := [] |})
      else throw (SignerAgentError "Certificate is missing reply")
  end.

(** [query(canisterId, options)] *)
Definition query (canisterId : PrincipalLike) (options : CallOptions) :
  M ApiQueryResponse :=
  let* sender := perform GetPrincipal options_getPrincipal in
  let* target := lift (Principal_from canisterId) in
  if delegationCondition target then
    let* delegationIdentity := getDelegationIdentity sender in
    match delegationIdentity with
    | Some delegationIdentity =>
        perform (AgentQuery canisterId options delegationIdentity)
          (agent_query (this_agent this) canisterId options delegationIdentity)
    | None => queryThroughSigner canisterId target options
    end
  else queryThroughSigner canisterId target options.

(** [requestIdFromReadStateOptions(options)]; [nth] reads out of range like
    an array read gives undefined, and is only reached in range. *)
Definition requestIdFromReadStateOptions (options : ReadStateOptions) :
  option Bytes :=
  if Nat.eqb (length (paths options)) 1
     && Nat.eqb (length (nth 0 (paths options) [])) 2 then
    let path := TextDecoder_decode (nth 0 (nth 0 (paths options) []) []) in
    if String.eqb path "request_status" then
      Some (nth 1 (nth 0 (paths options) []) [])
    else None
  else None.

(** [createReadStateRequest(options)]; without a marker the method falls off
    its end and returns undefined. *)
Definition createReadStateRequest (options : ReadStateOptions) :
  M (option ReadStateRequest) :=
  match requestIdFromReadStateOptions options with
  | None =>
      throw (SignerAgentError
        "Invalid read state request, request id could not be found in options")
  | Some requestId =>
      let requestKey := base64 requestId in
      let* marked := delegatedRequestIds_has requestKey in
      if marked then
        let* sender := perform GetPrincipal options_getPrincipal in
        let* delegationIdentity := getDelegationIdentity sender in
        let* request :=
          perform (AgentCreateReadStateRequest options delegationIdentity)
            (agent_createReadStateRequest (this_agent this) options
               delegationIdentity) in
        ret (Some request)
      else ret None
  end.

(** [readState(canisterId, options, identity, request)]; the last two
    parameters are never read. *)
Definition readState (canisterId : PrincipalLike) (options : ReadStateOptions) :
  M ReadStateResponse :=
  match requestIdFromReadStateOptions options with
  | None =>
      throw (SignerAgentError
        "Invalid read state request, request id could not be found in options")
  | Some requestId =>
      let requestKey := base64 requestId in
      let* marked := delegatedRequestIds_has requestKey in
      if marked then
        delegatedRequestIds_delete requestKey;;
        let* sender := perform GetPrincipal options_getPrincipal in
        let* delegationIdentity := getDelegationIdentity sender in
        perform (AgentReadState canisterId options delegationIdentity)
          (agent_readState (this_agent this) canisterId options
             delegationIdentity)
      else
        let* readStateResponse := readStateResponses_get requestKey in
        match readStateResponse with
        | None =>
            throw (SignerAgentError
              "Invalid read state request, response could not be found")
        | Some readStateResponse =>
            readStateResponses_delete requestKey;;
            ret readStateResponse
        end
  end.

End Agent.

(** ** A scripted environment

    A small world in which the methods can be run: the collaborators answer
    from a script, and the encodings are the simplest that compute. *)

Module Demo.

#[global] Instance Label_eq_decision : EqDecision Label.
Proof. solve_decision. Defined.

Record Script := {
  clock : Z;
  user : Principal;                   (* the answer of getPrincipal *)
  signed_method : option string;      (* the method the signer signs, when not the one asked *)
  tree : list (list Label * Bytes);   (* the state tree of the signer's certificate *)
  issued : DelegationChain;           (* the chain the signer issues *)
  transport_id : Bytes                (* the request id the HTTP agent reports *)
}.

#[global] Instance handles : Handles := {|
  World := Script;
  HttpAgent := unit;
  SignIdentity := Bytes;
  CryptoKeyPair := Bytes;
  Ed25519KeyIdentity := Bytes;
  ECDSAKeyIdentity := Bytes;
  Certificate := list (list Label * Bytes);
  BlsVerify := unit;
  Crypto := unit;
  ReadStateRequest := unit
|}.

Definition canister : Principal := mkPrincipal (list_byte_of_string "ledger").
Definition other_canister : Principal := mkPrincipal (list_byte_of_string "dex").
Definition alice : Principal := mkPrincipal (list_byte_of_string "alice").

Definition http (text : string) : HttpDetails :=
  {| ok := true; status := 200%Z; statusText := text; body := None; headers := [] |}.

(** A content map is the method name; the other members are fixed. *)
Definition demo_decode (contentMap : Bytes) : Outcome CallRequest :=
  Returned {| request_type := "call";
              canister_id := canister;
              method_name := string_of_list_byte contentMap;
              request_arg := [];
              request_sender := alice;
              ingress_expiry := 0;
              nonce := None |}.

(** A chain is written as the text of its delegating key; read back, it
    has one delegation, which expires at the length of the text. *)
Definition demo_fromJSON (json : string) : Outcome DelegationChain :=
  Returned {| delegations :=
                [ {| delegation :=
                       {| pubkey := list_byte_of_string json;
                          expiration := Z.of_nat (String.length json);
                          delegation_targets := None |};
                     signature := [] |} ];
              publicKey := list_byte_of_string json |}.

Definition demo_lookup (t : list (list Label * Bytes)) (path : list Label) :
  option Bytes :=
  snd <$> List.find (fun entry => bool_decide (fst entry = path)) t.

#[global] Instance collaborators : Collaborators := {|
  Principal_fromText := fun t => Some (mkPrincipal (list_byte_of_string t));
  Principal_toText := fun p => string_of_list_byte (principal_arr p);
  Principal_selfAuthenticating := mkPrincipal;
  base64 := string_of_list_byte;
  TextDecoder_decode := string_of_list_byte;
  TextEncoder_encode := list_byte_of_string;
  decode := demo_decode;
  requestIdOf := fun r => (list_byte_of_string (method_name r) ++ request_arg r)%list;
  Certificate_create := fun _ _ _ _ w => (Returned (tree w), w);
  Certificate_lookup := demo_lookup;
  DelegationChain_fromJSON := demo_fromJSON;
  DelegationChain_stringify := fun c => string_of_list_byte (publicKey c);
  isDelegationValid := fun c _ w =>
    forallb (fun d => (clock w <? expiration (delegation d))%Z) (delegations c);
  SignIdentity_toDer := fun k => k;
  Ed25519_toDer := fun k => k;
  ECDSA_toDer := fun k => k;
  Ed25519_generate := fun seed => seed;
  Ed25519_fromJSON := fun json => Returned (list_byte_of_string json);
  Ed25519_stringify := string_of_list_byte;
  ECDSA_generate := fun w => (Returned (list_byte_of_string "P256"), w);
  ECDSA_fromKeyPair := fun k => Returned k;
  ECDSA_getKeyPair := fun k => k;
  window_crypto := tt;
  getRandomValues := fun _ n w => (Returned (repeat x07 n), w);
  options_getPrincipal := fun w => (Returned (user w), w);
  signer_callCanister := fun _ _ method _ w =>
    (Returned {| contentMap :=
                   list_byte_of_string (default method (signed_method w));
                 signer_certificate := list_byte_of_string "cert" |}, w);
  signer_getDelegation := fun _ _ _ w => (Returned (issued w), w);
  new_HttpAgent := tt;
  agent_rootKey := fun _ _ => None;
  agent_call := fun _ _ _ _ w =>
    (Returned {| requestId := transport_id w; response := http "accepted" |}, w);
  agent_query := fun _ _ _ _ w => (Returned (QueryReplied (Some []) (http "ok")), w);
  agent_readState := fun _ _ _ _ w => (Returned {| certificate := list_byte_of_string "state" |}, w);
  agent_createReadStateRequest := fun _ _ _ w => (Returned tt, w)
|}.

Definition chain_of (key : Bytes) (expires : Z) : DelegationChain :=
  {| delegations :=
       [ {| delegation :=
              {| pubkey := key; expiration := expires;
                 delegation_targets := None |};
            signature := [] |} ];
     publicKey := key |}.

Definition status_path (requestId : Bytes) : list Label :=
  [LabelBuf (list_byte_of_string "request_status"); LabelBuf requestId;
   LabelBuf (list_byte_of_string "status")].

Definition reply_path (requestId : Bytes) : list Label :=
  [LabelBuf (list_byte_of_string "request_status"); LabelBuf requestId;
   LabelStr "reply"].

(** The world of the scenarios: alice is the caller, the signer signs what
    it is asked, its certificate says [replied] with a three-byte reply for
    the request [greet], and the chain it issues runs until time 100. *)
Definition script : World :=
  {| clock := 10;
     user := alice;
     signed_method := None;
     tree := [ (status_path (list_byte_of_string "greet"),
                list_byte_of_string "replied");
               (reply_path (list_byte_of_string "greet"), [x01; x02; x03]) ];
     issued := chain_of (list_byte_of_string "wallet") 100;
     transport_id := list_byte_of_string "rid-1" |}.

Definition greet : CallOptions :=
  {| methodName := "greet"; arg := []; effectiveCanisterId := None |}.

Definition options_with (storage : option SignerAgentStorage)
  (delegation : option DelegationOptions) : SignerAgentOptions :=
  {| opt_crypto := None; opt_agent := None; opt_blsVerify := None;
     opt_storage := storage; opt_delegation := delegation |}.

(** No delegation: everything goes through the signer. *)
Definition signer_only : SignerAgent := constructor (options_with None None).

(** Delegation restricted to [canister]. *)
Definition restricted : SignerAgent :=
  constructor
    (options_with None
       (Some {| identity := None; targets := Some [canister]; keyType := None |})).

(** Delegation without restriction, and a storage object supplied. *)
Definition with_storage : SignerAgent :=
  constructor
    (options_with (Some OptionsStorage)
       (Some {| identity := None; targets := None; keyType := None |})).

Definition start : Heap := fresh_heap ∅ ∅ script.

(** The signer signs a call to [drain] whatever it is asked. *)
Definition tampering : World :=
  {| clock := 10; user := alice; signed_method := Some "drain";
     tree := tree script; issued := issued script;
     transport_id := transport_id script |}.

(** The certificate says [replied] but holds no reply. *)
Definition without_reply : World :=
  {| clock := 10; user := alice; signed_method := None;
     tree := [ (status_path (list_byte_of_string "greet"),
                list_byte_of_string "replied") ];
     issued := issued script; transport_id := transport_id script |}.

(** The store holds, for alice and the key [P256], a chain that expired at
    time 3. *)
Definition stale : Heap :=
  fresh_heap {[ "delegation-chain-alice-P256" := SVString "old" ]} ∅ script.

(** The store holds, for alice and the key [P256], a chain that runs until
    time 21. *)
Definition cached : Heap :=
  fresh_heap {[ "delegation-chain-alice-P256" := SVString "chain-of-alice-wallet" ]}
    ∅ script.

(** What the signer answers to [greet] in [script], and what it decodes to. *)
Definition signed_greet : CallCanisterResponse :=
  {| contentMap := list_byte_of_string "greet";
     signer_certificate := list_byte_of_string "cert" |}.

Definition decoded (method : string) : CallRequest :=
  {| request_type := "call"; canister_id := canister; method_name := method;
     request_arg := []; request_sender := alice; ingress_expiry := 0;
     nonce := None |}.

(** [{paths: [["request_status", requestId]]}] *)
Definition status_of (requestId : Bytes) : ReadStateOptions :=
  {| paths := [[list_byte_of_string "request_status"; requestId]] |}.

(** [{paths: [["bad", "shape", "x"]]}] *)
Definition bad_shape : ReadStateOptions :=
  {| paths := [[list_byte_of_string "bad"; list_byte_of_string "shape";
                list_byte_of_string "x"]] |}.

(** A world in which the signer issues, for the wallet itself, a chain that
    reads back from its stored form and is still valid. *)
Definition early : World :=
  {| clock := 2; user := alice; signed_method := None; tree := tree script;
     issued := chain_of (list_byte_of_string "wallet") 6;
     transport_id := transport_id script |}.

Definition wallet : Principal := mkPrincipal (list_byte_of_string "wallet").

(** Both stores hold entries that are not the agent's. *)
Definition shared : Heap :=
  fresh_heap {[ "theme" := SVString "dark" ]} {[ "session" := SVString "42" ]}
    script.

(** A key pair sits where a chain is expected. *)
Definition broken : Heap :=
  fresh_heap
    {[ "delegation-chain-alice-P256" := SVKeyPair (list_byte_of_string "P256") ]}
    ∅ script.

(** The identity generated for alice, and its delegation identity. *)
Definition session_key : BaseIdentity :=
  Generated (ECDSA (list_byte_of_string "P256")).

Definition session_identity : DelegationIdentity :=
  fromDelegation session_key (issued script).

End Demo.

(** ** Runs of the agent *)

Section Runs.
Context {HH : Handles} {CC : Collaborators}.
Variable this : SignerAgent.

(** The four operations of the claims, with their arguments. *)
Inductive Operation :=
| OpCall (canisterId : PrincipalLike) (options : CallOptions)
| OpQuery (canisterId : PrincipalLike) (options : CallOptions)
| OpReadState (canisterId : PrincipalLike) (options : ReadStateOptions)
| OpCreateReadStateRequest (options : ReadStateOptions).

(** The heap an operation leaves, whether it returns or throws. *)
Definition exec (op : Operation) (h : Heap) : Heap :=
  match op with
  | OpCall canisterId options => snd (call this canisterId options h)
  | OpQuery canisterId options => snd (query this canisterId options h)
  | OpReadState canisterId options => snd (readState this canisterId options h)
  | OpCreateReadStateRequest options => snd (createReadStateRequest this options h)
  end.

(** The heaps the instance can be in: it starts with empty collections,
    runs operations, and between them the world and the stores may change
    under it. *)
Inductive reachable : Heap -> Prop :=
| reachable_fresh idb0 custom0 w :
    reachable (fresh_heap idb0 custom0 w)
| reachable_exec op h :
    reachable h -> reachable (exec op h)
| reachable_world h idb' custom' w' :
    reachable h ->
    reachable
      (mkHeap (readStateResponses h) (delegatedRequestIds h) idb' custom' w'
         (trace h)).

(** Whether the instance takes the delegated path; the condition does not
    look at the target (see [delegationCondition]). *)
Definition delegates : bool := delegationCondition this (mkPrincipal []).

(** Only one of the two collections is ever in use. *)
Definition one_collection (h : Heap) : Prop :=
  (delegates = true -> readStateResponses h = ∅)
  /\ (delegates = false -> delegatedRequestIds h = ∅).

(** [m] keeps [I] whatever its outcome. *)
Definition preserves {A} (I : Heap -> Prop) (m : M A) : Prop :=
  forall h, I h -> I (snd (m h)).

(** [I] looks at the two collections only. *)
Definition collections_only (I : Heap -> Prop) : Prop :=
  forall h h',
    readStateResponses h = readStateResponses h' ->
    delegatedRequestIds h = delegatedRequestIds h' ->
    I h -> I h'.

End Runs.

(** ** What an operation may do *)

#[global] Instance SignerAgentStorage_eq_decision : EqDecision SignerAgentStorage.
Proof. solve_decision. Defined.

Section Steps.
Context {HH : Handles} {CC : Collaborators}.

(** [m] takes every heap to one that [R] relates to it, whether it returns
    or throws. *)
Definition steps {A} (R : Heap -> Heap -> Prop) (m : M A) : Prop :=
  forall h, R h (snd (m h)).

(** From [h] to [h'] calls were recorded, and all of them pass [P]. *)
Definition emitting (P : Event -> bool) (h h' : Heap) : Prop :=
  exists events,
    trace h' = (trace h ++ events)%list /\ forallb P events = true.

(** The keys the agent builds: lines 316, 340, 358 and 378. *)
Definition agent_key (key : string) : bool :=
  String.prefix "delegation-identity-" key
  || String.prefix "delegation-chain-" key.

(** The calls of [getDelegationIdentity] and of what it calls: the store [s]
    under the agent's keys, the signer's [getDelegation], the key
    generators. *)
Definition delegation_event (s : SignerAgentStorage) (e : Event) : bool :=
  match e with
  | StorageGet s' key | StorageSet s' key _ =>
      bool_decide (s' = s) && agent_key key
  | GetDelegation _ _ _ | GenerateECDSA | RandomValues _ => true
  | _ => false
  end.

(** Any call, as long as the ones to a store are to [s] under the agent's
    keys. *)
Definition own_storage_event (s : SignerAgentStorage) (e : Event) : bool :=
  match e with
  | StorageGet s' key | StorageSet s' key _ =>
      bool_decide (s' = s) && agent_key key
  | _ => true
  end.

(** The calls of the path through the signer. *)
Definition signer_event (e : Event) : bool :=
  match e with
  | GetPrincipal | CallCanister _ _ _ _ | CertificateCreate _ _ => true
  | _ => false
  end.

(** [getDelegationIdentity] and nothing else changed the heap: the two
    collections are as before, and so is every store but [s], and in [s]
    every entry under another key than the agent's. *)
Definition delegation_step (s : SignerAgentStorage) (h h' : Heap) : Prop :=
  emitting (delegation_event s) h h'
  /\ readStateResponses h' = readStateResponses h
  /\ delegatedRequestIds h' = delegatedRequestIds h
  /\ (forall s', s' <> s -> store_of s' h' = store_of s' h)
  /\ (forall key,
        agent_key key = false -> store_of s h' !! key = store_of s h !! key).

(** The calls to a store went to [s] under the agent's keys; every other
    store is as before, and in [s] every entry under another key. *)
Definition own_step (s : SignerAgentStorage) (h h' : Heap) : Prop :=
  emitting (own_storage_event s) h h'
  /\ (forall s', s' <> s -> store_of s' h' = store_of s' h)
  /\ (forall key,
        agent_key key = false -> store_of s h' !! key = store_of s h !! key).

(** Only the calls of the path through the signer were made, and both
    stores are as before. *)
Definition signer_step (h h' : Heap) : Prop :=
  emitting signer_event h h' /\ idb h' = idb h /\ custom h' = custom h.

(** A call to the store [s]. *)
Definition on_storage (s : SignerAgentStorage) (e : Event) : bool :=
  match e with
  | StorageGet s' _ | StorageSet s' _ _ => bool_decide (s' = s)
  | _ => false
  end.

(** The instance [this] with another HTTP agent in [this.agent]. *)
Definition with_agent (this : SignerAgent) (agent : HttpAgent) : SignerAgent :=
  {| this_options := this_options this;
     this_agent := agent;
     this_storage := this_storage this |}.

(** Both collections are as before. *)
Definition same_collections (h h' : Heap) : Prop :=
  readStateResponses h' = readStateResponses h
  /\ delegatedRequestIds h' = delegatedRequestIds h.

(** Nothing was added to either collection. *)
Definition nothing_stored (h h' : Heap) : Prop :=
  dom (readStateResponses h') ⊆ dom (readStateResponses h)
  /\ delegatedRequestIds h' = delegatedRequestIds h.

(** No call to the signer's [callCanister] was made. *)
Definition no_callCanister (e : Event) : bool := negb (is_CallCanister e).

(** What the stored form of the identity [i] reads back as: the identity
    itself. *)
Definition reads_back (i : BaseIdentity) : Prop :=
  match i with
  | Supplied _ => True
  | Generated (Ed25519 k) =>
      Ed25519_fromJSON (Ed25519_stringify k) = Returned k
      /\ Ed25519_stringify k <> ""
  | Generated (ECDSA k) => ECDSA_fromKeyPair (ECDSA_getKeyPair k) = Returned k
  end.

End Steps.

(** * PostMessageChannel: the channel over [window.postMessage] *)

Module PostMessageChannel.
Section Channel.

(** [JsonRequest], the type of [event.data], the listeners handed to
    [registerListener], and [isJsonRpcResponse] of @slide-computer/signer. *)
Context {JsonRequest JsonValue Listener : Type}.
Variable isJsonRpcResponse : JsonValue -> bool.

(** Windows are told apart by a number. *)
Record PostMessageChannelOptions := {
  window : nat;
  origin : string
}.

(** What the channel reads of a [MessageEvent]; the source may be null or
    something that is no window. *)
Record MessageEvent := {
  source : option nat;
  event_origin : string;   (* origin *)
  data : JsonValue
}.

Inductive ChannelExn := PostMessageTransportError (message : string).

(** A "message" listener of the global window: one closure
    [messageListener], with the options and the listener it captured. *)
Record MessageListener := {
  closure : nat;
  captured_options : PostMessageChannelOptions;
  captured_listener : Listener
}.

(** The browser, as far as the channel goes. *)
Record Browser := mkBrowser {
  closed_windows : gset nat;          (* the windows whose [closed] is true *)
  script_closable : gset nat;         (* the windows [close()] may close *)
  posted : list (nat * JsonRequest * string);  (* postMessage calls: window, message, target origin *)
  message_listeners : list MessageListener;     (* in the order they were added *)
  next_closure : nat
}.

(** [get closed()] *)
Definition closed (options : PostMessageChannelOptions) (b : Browser) : bool :=
  bool_decide (window options ∈ closed_windows b).

(** The body of [messageListener]: the call to [listener] it makes, if any. *)
Definition messageListener (options : PostMessageChannelOptions)
  (listener : Listener) (event : MessageEvent) : option (Listener * JsonValue) :=
  if negb (bool_decide (source event = Some (window options)))
     || negb (String.eqb (event_origin event) (origin options))
     || negb (isJsonRpcResponse (data event))
  then None
  else Some (listener, data event).

(** [registerListener(listener)]: a new closure is added to the listeners;
    the function returned is named by the closure it removes. *)
Definition registerListener (options : PostMessageChannelOptions)
  (listener : Listener) (b : Browser) : nat * Browser :=
  (next_closure b,
   mkBrowser (closed_windows b) (script_closable b) (posted b)
     (message_listeners b
        ++ [{| closure := next_closure b;
               captured_options := options;
               captured_listener := listener |}])%list
     (S (next_closure b))).

(** A call of the function [registerListener] returned:
    [window.removeEventListener("message", messageListener)]. *)
Definition unregister (c : nat) (b : Browser) : Browser :=
  mkBrowser (closed_windows b) (script_closable b) (posted b)
    (List.filter (fun l => negb (Nat.eqb (closure l) c)) (message_listeners b))
    (next_closure b).

(** [send(request)] *)
Definition send (options : PostMessageChannelOptions) (request : JsonRequest)
  (b : Browser) : (ChannelExn + unit) * Browser :=
  if closed options b then
    (inl (PostMessageTransportError "Communication channel is closed"), b)
  else
    (inr tt,
     mkBrowser (closed_windows b) (script_closable b)
       (posted b ++ [(window options, request, origin options)])%list
       (message_listeners b) (next_closure b)).

(** [close()]: [window.close()] closes a window the script may close. *)
Definition close (options : PostMessageChannelOptions) (b : Browser) : Browser :=
  if bool_decide (window options ∈ script_closable b) then
    mkBrowser ({[window options]} ∪ closed_windows b) (script_closable b)
      (posted b) (message_listeners b) (next_closure b)
  else b.

(** A message event reaches the global window: the calls the listeners
    make, in the order the listeners were added. *)
Definition dispatch (b : Browser) (event : MessageEvent) :
  list (Listener * JsonValue) :=
  omap (fun l => messageListener (captured_options l) (captured_listener l) event)
    (message_listeners b).

(** Closures are numbered below the next one. *)
Definition well_numbered (b : Browser) : Prop :=
  Forall (fun l => closure l < next_closure b) (message_listeners b).

End Channel.

(** A browser with one popup, which the script may close and which has one
    listener already; requests and data are numbers, listeners are named. *)
Definition popup : PostMessageChannelOptions :=
  {| window := 1; origin := "https://wallet.example" |}.

Definition browser : @Browser nat string :=
  mkBrowser ∅ {[1]} []
    [ {| closure := 0; captured_options := popup; captured_listener := "first" |} ]
    1.

Definition is_response (data : nat) : bool := Nat.even data.

End PostMessageChannel.

(** * Properties *)

(** ** The comparisons of the libraries *)

Lemma byte_val_inj (a b : Byte.byte) : byte_val a = byte_val b -> a = b.
Proof.
  unfold byte_val. intros E. apply N2Z.inj in E.
  assert (E' : Byte.of_N (Byte.to_N a) = Byte.of_N (Byte.to_N b))
    by (now rewrite E).
  rewrite !Byte.of_to_N in E'. congruence.
Qed.

Lemma compare_arr_eq (a b : Bytes) : compare_arr a b = Eq <-> a = b.
Proof.
  revert b. induction a as [|x a IH]; intros [|y b]; simpl;
    try (split; [discriminate | congruence]); [tauto|].
  destruct (Z.ltb_spec (byte_val x) (byte_val y)) as [Hlt|Hge].
  { split; [discriminate|]. intros [= -> _]. lia. }
  destruct (Z.ltb_spec (byte_val y) (byte_val x)) as [Hgt|Hle].
  { split; [discriminate|]. intros [= -> _]. lia. }
  assert (x = y) as -> by (apply byte_val_inj; lia).
  rewrite IH. split; congruence.
Qed.

Lemma compareTo_eq (p q : Principal) : is_eq (compareTo p q) = true <-> p = q.
Proof.
  destruct p as [a], q as [b]. unfold compareTo. simpl.
  pose proof (compare_arr_eq a b) as E.
  destruct (compare_arr a b); simpl; split; intros G;
    try discriminate; try reflexivity.
  - f_equal. now apply E.
  - injection G as G. apply E in G. discriminate.
  - injection G as G. apply E in G. discriminate.
Qed.

Lemma compareTo_self (p : Principal) : is_eq (compareTo p p) = true.
Proof. now apply compareTo_eq. Qed.

Lemma compare_same_length_zero (u1 u2 : Bytes) :
  length u1 = length u2 -> compare_same_length u1 u2 = 0%Z <-> u1 = u2.
Proof.
  revert u2. induction u1 as [|x u1 IH]; intros [|y u2]; simpl;
    try discriminate; [tauto|].
  intros [= Hlen]. destruct (decide (x = y)) as [->|Hne].
  - rewrite (IH _ Hlen). split; congruence.
  - split; [|congruence]. intros E. exfalso. apply Hne, byte_val_inj. lia.
Qed.

Lemma compare_zero (b1 b2 : Bytes) : compare b1 b2 = 0%Z <-> b1 = b2.
Proof.
  unfold compare. destruct (decide (length b1 = length b2)) as [Hlen|Hne].
  - now apply compare_same_length_zero.
  - split; [lia | congruence].
Qed.

Section Properties.
Context {HH : Handles} {CC : Collaborators}.

(** ** The content check of [call] *)

Lemma contentMismatch_false target sender options body :
  contentMismatch target sender options body = false <->
  request_type body = SubmitRequestType_Call
  /\ canister_id body = target
  /\ method_name body = methodName options
  /\ request_arg body = arg options
  /\ request_sender body = sender.
Proof.
  unfold contentMismatch.
  rewrite !orb_false_iff, !negb_false_iff, !String.eqb_eq, !compareTo_eq,
    Z.eqb_eq, compare_zero.
  intuition congruence.
Qed.

Lemma contentMismatch_true target sender options body :
  contentMismatch target sender options body = true <->
  request_type body <> SubmitRequestType_Call
  \/ canister_id body <> target
  \/ method_name body <> methodName options
  \/ request_arg body <> arg options
  \/ request_sender body <> sender.
Proof.
  rewrite <- not_false_iff_true, contentMismatch_false.
  destruct (decide (request_type body = SubmitRequestType_Call));
  destruct (decide (canister_id body = target));
  destruct (decide (method_name body = methodName options));
  destruct (decide (request_arg body = arg options));
  destruct (decide (request_sender body = sender)); tauto.
Qed.

(** ** The routing condition *)

Lemma delegationCondition_any_target this (t t' : Principal) :
  delegationCondition this t = delegationCondition this t'.
Proof. reflexivity. Qed.

Lemma existsb_self_compare (ts : list Principal) :
  existsb (fun target => is_eq (compareTo target target)) ts
  = negb (Nat.eqb (length ts) 0).
Proof. destruct ts as [|t ts]; simpl; [|rewrite compareTo_self]; reflexivity. Qed.

(** X1. What the condition of the delegated path computes: it is true
    exactly when [options.delegation] is set and its targets list is missing
    or not empty, whatever the canister asked for. *)
Lemma delegationCondition_spec this t :
  delegationCondition this t
  = match opt_delegation (this_options this) with
    | None => false
    | Some d =>
        match targets d with
        | None => true
        | Some ts => negb (Nat.eqb (length ts) 0)
        end
    end.
Proof.
  unfold delegationCondition.
  destruct (opt_delegation (this_options this)) as [d|]; [|reflexivity].
  destruct (targets d) as [ts|]; [|reflexivity].
  apply existsb_self_compare.
Qed.

Lemma delegationCondition_delegation this t :
  delegationCondition this t = true ->
  exists d, opt_delegation (this_options this) = Some d.
Proof.
  unfold delegationCondition.
  destruct (opt_delegation (this_options this)) as [d|]; [eauto | discriminate].
Qed.

(** ** What the methods leave of the two collections *)

Section Invariance.
Variable I : Heap -> Prop.

Lemma preserves_ret {A} (a : A) : preserves I (ret a).
Proof. intros h Hh. exact Hh. Qed.

Lemma preserves_throw {A} e : preserves I (@throw _ A e).
Proof. intros h Hh. exact Hh. Qed.

Lemma preserves_lift {A} (o : Outcome A) : preserves I (lift o).
Proof. intros h Hh. exact Hh. Qed.

Lemma preserves_observe {A} (f : World -> A) : preserves I (observe f).
Proof. intros h Hh. exact Hh. Qed.

Lemma preserves_readStateResponses_get key :
  preserves I (readStateResponses_get key).
Proof. intros h Hh. exact Hh. Qed.

Lemma preserves_delegatedRequestIds_has key :
  preserves I (delegatedRequestIds_has key).
Proof. intros h Hh. exact Hh. Qed.

(** The continuation only has to keep [I] for the values [m] can return. *)
Lemma preserves_bind_returned {A B} (m : M A) (k : A -> M B) (Q : A -> Prop) :
  preserves I m ->
  (forall h a, fst (m h) = Returned a -> Q a) ->
  (forall a, Q a -> preserves I (k a)) ->
  preserves I (bind m k).
Proof.
  intros Hm HQ Hk h Hh. unfold bind.
  specialize (Hm h Hh). specialize (HQ h).
  destruct (m h) as [[a|e] h']; simpl in *; [|exact Hm].
  apply (Hk a); [apply HQ; reflexivity | exact Hm].
Qed.

Lemma preserves_bind {A B} (m : M A) (k : A -> M B) :
  preserves I m -> (forall a, preserves I (k a)) -> preserves I (bind m k).
Proof.
  intros Hm Hk.
  apply (preserves_bind_returned m k (fun _ => True)); auto.
Qed.

Hypothesis I_collections : collections_only I.

Lemma preserves_perform {A} e (f : Eff A) : preserves I (perform e f).
Proof.
  intros h Hh. unfold perform. destruct (f (world h)) as [r w]. simpl.
  now apply (I_collections h).
Qed.

Lemma preserves_storage_get s key : preserves I (storage_get s key).
Proof. intros h Hh. now apply (I_collections h). Qed.

Lemma preserves_storage_set s key value : preserves I (storage_set s key value).
Proof. intros h Hh. destruct s; now apply (I_collections h). Qed.

Variable this : SignerAgent.

Ltac keeps :=
  repeat first
    [ apply preserves_ret | apply preserves_throw | apply preserves_lift
    | apply preserves_observe | apply preserves_perform
    | apply preserves_storage_get | apply preserves_storage_set
    | apply preserves_readStateResponses_get
    | apply preserves_delegatedRequestIds_has
    | solve [auto]
    | apply preserves_bind; [|intros ?]
    | match goal with
      | |- preserves _ (match ?x with _ => _ end) => destruct x
      end ].

Lemma preserves_setDelegationChain c : preserves I (setDelegationChain this c).
Proof. unfold setDelegationChain. keeps. Qed.

Lemma preserves_getDelegationChain p k :
  preserves I (getDelegationChain this p k).
Proof.
  pose proof preserves_setDelegationChain.
  unfold getDelegationChain, requestDelegationChain. keeps.
Qed.

Lemma preserves_getDelegationBaseIdentity p :
  preserves I (getDelegationBaseIdentity this p).
Proof.
  unfold getDelegationBaseIdentity, newDelegationBaseIdentity,
    createDelegationBaseIdentity, setDelegationBaseIdentity.
  keeps.
Qed.

Lemma preserves_getDelegationIdentity p :
  preserves I (getDelegationIdentity this p).
Proof.
  pose proof preserves_getDelegationChain.
  pose proof preserves_getDelegationBaseIdentity.
  unfold getDelegationIdentity. keeps.
Qed.

End Invariance.

(** ** Only one collection is in use *)

Lemma one_collection_collections_only this :
  collections_only (one_collection this).
Proof.
  intros h h' E1 E2 [Hd Hs]. unfold one_collection.
  rewrite <- E1, <- E2. now split.
Qed.

Lemma preserves_readStateResponses_delete this key :
  preserves (one_collection this) (readStateResponses_delete key).
Proof.
  intros h [Hd Hs]. split; simpl; [|exact Hs].
  intros E. rewrite (Hd E). apply delete_empty.
Qed.

Lemma preserves_delegatedRequestIds_delete this key :
  preserves (one_collection this) (delegatedRequestIds_delete key).
Proof.
  intros h [Hd Hs]. split; simpl; [exact Hd|].
  intros E. rewrite (Hs E). apply empty_difference_L.
Qed.

Lemma preserves_readStateResponses_set this key value :
  delegates this = false ->
  preserves (one_collection this) (readStateResponses_set key value).
Proof.
  intros E h [Hd Hs]. split; simpl; [|exact Hs]. congruence.
Qed.

Lemma preserves_delegatedRequestIds_add this key :
  delegates this = true ->
  preserves (one_collection this) (delegatedRequestIds_add key).
Proof.
  intros E h [Hd Hs]. split; simpl; [exact Hd|]. congruence.
Qed.

(** With [options.delegation] set, [getDelegationIdentity] returns an
    identity whenever it returns. *)
Lemma getDelegationIdentity_returned this d principal h a :
  opt_delegation (this_options this) = Some d ->
  fst (getDelegationIdentity this principal h) = Returned a ->
  exists delegationIdentity, a = Some delegationIdentity.
Proof.
  intros Hd. unfold getDelegationIdentity, bind, ret. rewrite Hd.
  destruct (getDelegationBaseIdentity this principal h) as [[b|e] h1];
    [|discriminate].
  destruct (getDelegationChain this principal (getPublicKey_toDer b) h1)
    as [[c|e] h2]; [|discriminate].
  simpl. intros [= <-]. eauto.
Qed.

Ltac keeps_one :=
  repeat first
    [ apply preserves_ret | apply preserves_throw | apply preserves_lift
    | apply preserves_observe
    | apply preserves_perform, one_collection_collections_only
    | apply preserves_readStateResponses_get
    | apply preserves_delegatedRequestIds_has
    | apply preserves_readStateResponses_delete
    | apply preserves_delegatedRequestIds_delete
    | apply preserves_getDelegationIdentity, one_collection_collections_only
    | solve [auto]
    | apply preserves_bind; [|intros ?]
    | match goal with
      | |- preserves _ (match ?x with _ => _ end) => destruct x
      end ].

Lemma preserves_callThroughSigner this sender target options :
  delegates this = false ->
  preserves (one_collection this) (callThroughSigner sender target options).
Proof.
  intros E. pose proof (preserves_readStateResponses_set this) as Hset.
  unfold callThroughSigner. keeps_one.
Qed.

Lemma preserves_call this canisterId options :
  preserves (one_collection this) (call this canisterId options).
Proof.
  unfold call.
  apply preserves_bind; [keeps_one | intros sender].
  apply preserves_bind; [keeps_one | intros target].
  destruct (delegationCondition this target) eqn:E.
  - destruct (delegationCondition_delegation _ _ E) as [d Hd].
    apply preserves_bind_returned
      with (Q := fun a => exists delegationIdentity, a = Some delegationIdentity).
    + keeps_one.
    + intros h a. now apply getDelegationIdentity_returned with (d := d).
    + intros a [delegationIdentity ->].
      pose proof (preserves_delegatedRequestIds_add this) as Hadd.
      keeps_one.
  - now apply preserves_callThroughSigner.
Qed.

Lemma preserves_query this canisterId options :
  preserves (one_collection this) (query this canisterId options).
Proof.
  pose proof (preserves_call this) as Hcall.
  assert (Hsigner : forall target,
    preserves (one_collection this)
      (queryThroughSigner this canisterId target options)).
  { intros target. unfold queryThroughSigner. keeps_one. }
  unfold query. keeps_one.
Qed.

Lemma preserves_readState this canisterId options :
  preserves (one_collection this) (readState this canisterId options).
Proof. unfold readState. keeps_one. Qed.

Lemma preserves_createReadStateRequest this options :
  preserves (one_collection this) (createReadStateRequest this options).
Proof. unfold createReadStateRequest. keeps_one. Qed.

Lemma reachable_one_collection this h :
  reachable this h -> one_collection this h.
Proof.
  induction 1 as [idb0 custom0 w | op h _ IH | h idb' custom' w' _ IH].
  - split; reflexivity.
  - destruct op; simpl.
    + now apply preserves_call.
    + now apply preserves_query.
    + now apply preserves_readState.
    + now apply preserves_createReadStateRequest.
  - now apply (one_collection_collections_only this h).
Qed.

(** C9. In every heap the instance can reach by calls to [call], [query],
    [readState] and [createReadStateRequest], no request identifier has both
    a certified response in [readStateResponses] and a marker in
    [delegatedRequestIds]. *)
Theorem collections_exclusive this h :
  reachable this h ->
  forall requestId : Bytes,
    ~ (is_Some (readStateResponses h !! base64 requestId)
       /\ base64 requestId ∈ delegatedRequestIds h).
Proof.
  intros Hreach requestId [[r Hr] Hm].
  destruct (reachable_one_collection this h Hreach) as [Hd Hs].
  destruct (delegates this) eqn:E.
  - rewrite (Hd eq_refl) in Hr. now rewrite lookup_empty in Hr.
  - rewrite (Hs eq_refl) in Hm. set_solver.
Qed.


(** ** Reading the request identifier off the paths *)

Lemma requestIdFromReadStateOptions_Some options requestId :
  requestIdFromReadStateOptions options = Some requestId <->
  exists segment,
    paths options = [[segment; requestId]]
    /\ TextDecoder_decode segment = "request_status".
Proof.
  unfold requestIdFromReadStateOptions. destruct options as [ps]. simpl.
  split.
  - destruct ps as [|p [|p' ps]]; simpl; try discriminate.
    destruct p as [|s0 [|s1 [|s2 p]]]; simpl; try discriminate.
    destruct (String.eqb_spec (TextDecoder_decode s0) "request_status");
      [|discriminate].
    intros [= <-]. eauto.
  - intros (segment & -> & E). simpl. rewrite E. reflexivity.
Qed.

Lemma requestIdFromReadStateOptions_None options :
  requestIdFromReadStateOptions options = None <->
  ~ exists segment requestId,
      paths options = [[segment; requestId]]
      /\ TextDecoder_decode segment = "request_status".
Proof.
  split.
  - intros E (segment & requestId & Hshape).
    assert (requestIdFromReadStateOptions options = Some requestId) as E'
      by (apply requestIdFromReadStateOptions_Some; eauto).
    congruence.
  - intros Hnone.
    destruct (requestIdFromReadStateOptions options) as [requestId|] eqn:E;
      [|reflexivity].
    apply requestIdFromReadStateOptions_Some in E as (segment & ? & ?).
    exfalso. apply Hnone. eauto.
Qed.

(** C7. [requestIdFromReadStateOptions] finds an identifier exactly when
    there is one path, of two segments, the first of which decodes to
    "request_status"; the identifier is the second segment. For every other
    shape it finds none, and [readState] and [createReadStateRequest] throw
    the invalid-request error and leave the heap as it is. *)
Theorem requestId_extraction this options :
  (forall requestId,
     requestIdFromReadStateOptions options = Some requestId <->
     exists segment,
       paths options = [[segment; requestId]]
       /\ TextDecoder_decode segment = "request_status")
  /\ ((~ exists segment requestId,
          paths options = [[segment; requestId]]
          /\ TextDecoder_decode segment = "request_status") ->
      requestIdFromReadStateOptions options = None
      /\ forall h,
          (forall canisterId,
             readState this canisterId options h
             = (Thrown (SignerAgentError
                  "Invalid read state request, request id could not be found in options"),
                h))
          /\ createReadStateRequest this options h
             = (Thrown (SignerAgentError
                  "Invalid read state request, request id could not be found in options"),
                h)).
Proof.
  split; [apply requestIdFromReadStateOptions_Some|].
  intros Hshape. apply requestIdFromReadStateOptions_None in Hshape.
  split; [exact Hshape|]. intros h.
  unfold readState, createReadStateRequest. rewrite Hshape.
  split; reflexivity.
Qed.

(** ** Calls through the signer *)

(** When the condition of the delegated path fails, [call] is the call
    through the signer. *)
Lemma call_not_delegated this canisterId options h sender w target :
  options_getPrincipal (world h) = (Returned sender, w) ->
  Principal_from canisterId = Returned target ->
  delegationCondition this target = false ->
  call this canisterId options h
  = callThroughSigner sender target options (moved h w [GetPrincipal]).
Proof.
  intros Hp Ht Hc. unfold call, bind, perform, lift.
  rewrite Hp, Ht, Hc. reflexivity.
Qed.

Lemma moved_moved h w events w' events' :
  moved (moved h w events) w' events' = moved h w' (events ++ events').
Proof. unfold moved. simpl. now rewrite <- app_assoc. Qed.

Lemma callThroughSigner_match sender target options h signed w requestBody :
  signer_callCanister target sender (methodName options) (arg options) (world h)
  = (Returned signed, w) ->
  decode (contentMap signed) = Returned requestBody ->
  contentMismatch target sender options requestBody = false ->
  callThroughSigner sender target options h
  = (Returned
       {| requestId := requestIdOf requestBody;
          response :=
            {| ok := true; status := 200%Z;
               statusText := "Call has been sent over ICRC-25 JSON-RPC";
               body := None; headers := [] |} |},
     mkHeap
       (<[base64 (requestIdOf requestBody) :=
            {| certificate := signer_certificate signed |}]>
          (readStateResponses h))
       (delegatedRequestIds h) (idb h) (custom h) w
       (trace h
          ++ [CallCanister target sender (methodName options) (arg options)])).
Proof.
  intros Hs Hd Hm. unfold callThroughSigner, bind, perform, lift.
  rewrite Hs, Hd, Hm. reflexivity.
Qed.

Lemma callThroughSigner_mismatch sender target options h signed w requestBody :
  signer_callCanister target sender (methodName options) (arg options) (world h)
  = (Returned signed, w) ->
  decode (contentMap signed) = Returned requestBody ->
  contentMismatch target sender options requestBody = true ->
  callThroughSigner sender target options h
  = (Thrown (SignerAgentError "Received invalid content map from signer "),
     moved h w
       [CallCanister target sender (methodName options) (arg options)]).
Proof.
  intros Hs Hd Hm. unfold callThroughSigner, bind, perform, lift.
  rewrite Hs, Hd, Hm. reflexivity.
Qed.

(** C2. A call that goes through the signer and gets back a content map
    that decodes to the request made (type "call", same canister, method,
    argument and sender) returns the identifier [requestIdOf] computes from
    the decoded content, and leaves the signer's certificate in
    [readStateResponses] under the base64 text of that identifier. *)
Theorem call_through_signer_identifier
  this canisterId options h sender w1 target signed w2 requestBody :
  options_getPrincipal (world h) = (Returned sender, w1) ->
  Principal_from canisterId = Returned target ->
  delegationCondition this target = false ->
  signer_callCanister target sender (methodName options) (arg options) w1
  = (Returned signed, w2) ->
  decode (contentMap signed) = Returned requestBody ->
  request_type requestBody = SubmitRequestType_Call ->
  canister_id requestBody = target ->
  method_name requestBody = methodName options ->
  request_arg requestBody = arg options ->
  request_sender requestBody = sender ->
  call this canisterId options h
  = (Returned
       {| requestId := requestIdOf requestBody;
          response :=
            {| ok := true; status := 200%Z;
               statusText := "Call has been sent over ICRC-25 JSON-RPC";
               body := None; headers := [] |} |},
     mkHeap
       (<[base64 (requestIdOf requestBody) :=
            {| certificate := signer_certificate signed |}]>
          (readStateResponses h))
       (delegatedRequestIds h) (idb h) (custom h) w2
       (trace h
          ++ [GetPrincipal;
              CallCanister target sender (methodName options) (arg options)])).
Proof.
  intros Hp Ht Hc Hs Hd E1 E2 E3 E4 E5.
  rewrite (call_not_delegated _ _ _ _ _ _ _ Hp Ht Hc).
  rewrite (callThroughSigner_match _ _ _ _ signed w2 requestBody); simpl;
    [now rewrite <- app_assoc | exact Hs | exact Hd |].
  apply contentMismatch_false. auto.
Qed.

(** C3. A call that goes through the signer and gets back a content map
    that decodes to something else than the request made, in its type,
    canister, method, argument or sender, throws [SignerAgentError]; nothing
    is added to [readStateResponses] or to [delegatedRequestIds]. *)
Theorem call_through_signer_mismatch
  this canisterId options h sender w1 target signed w2 requestBody :
  options_getPrincipal (world h) = (Returned sender, w1) ->
  Principal_from canisterId = Returned target ->
  delegationCondition this target = false ->
  signer_callCanister target sender (methodName options) (arg options) w1
  = (Returned signed, w2) ->
  decode (contentMap signed) = Returned requestBody ->
  request_type requestBody <> SubmitRequestType_Call
  \/ canister_id requestBody <> target
  \/ method_name requestBody <> methodName options
  \/ request_arg requestBody <> arg options
  \/ request_sender requestBody <> sender ->
  exists h',
    call this canisterId options h
    = (Thrown (SignerAgentError "Received invalid content map from signer "), h')
    /\ readStateResponses h' = readStateResponses h
    /\ delegatedRequestIds h' = delegatedRequestIds h.
Proof.
  intros Hp Ht Hc Hs Hd Hne.
  rewrite (call_not_delegated _ _ _ _ _ _ _ Hp Ht Hc).
  rewrite (callThroughSigner_mismatch _ _ _ _ signed w2 requestBody);
    [eauto | exact Hs | exact Hd |].
  now apply contentMismatch_true.
Qed.


(** ** Reading a response back *)

Lemma readState_unknown this canisterId options h requestId :
  requestIdFromReadStateOptions options = Some requestId ->
  base64 requestId ∉ delegatedRequestIds h ->
  readStateResponses h !! base64 requestId = None ->
  readState this canisterId options h
  = (Thrown (SignerAgentError
       "Invalid read state request, response could not be found"), h).
Proof.
  intros Hid Hmark Hnone.
  unfold readState, bind, delegatedRequestIds_has, readStateResponses_get.
  rewrite Hid, (bool_decide_eq_false_2 _ Hmark), Hnone. reflexivity.
Qed.

Lemma readState_marked this canisterId options h requestId :
  requestIdFromReadStateOptions options = Some requestId ->
  base64 requestId ∈ delegatedRequestIds h ->
  readState this canisterId options h
  = (let* sender := perform GetPrincipal options_getPrincipal in
     let* delegationIdentity := getDelegationIdentity this sender in
     perform (AgentReadState canisterId options delegationIdentity)
       (agent_readState (this_agent this) canisterId options delegationIdentity))
      (snd (delegatedRequestIds_delete (base64 requestId) h)).
Proof.
  intros Hid Hmark. unfold readState. rewrite Hid.
  unfold bind at 1, delegatedRequestIds_has.
  rewrite (bool_decide_eq_true_2 _ Hmark). reflexivity.
Qed.

(** Forwarding a read to the HTTP agent changes neither collection. *)
Lemma forwarded_read_collections this canisterId options h :
  let h' :=
    snd ((let* sender := perform GetPrincipal options_getPrincipal in
          let* delegationIdentity := getDelegationIdentity this sender in
          perform (AgentReadState canisterId options delegationIdentity)
            (agent_readState (this_agent this) canisterId options
               delegationIdentity)) h) in
  readStateResponses h' = readStateResponses h
  /\ delegatedRequestIds h' = delegatedRequestIds h.
Proof.
  set (I := fun h' : Heap =>
    readStateResponses h' = readStateResponses h
    /\ delegatedRequestIds h' = delegatedRequestIds h).
  assert (HI : collections_only I).
  { intros h1 h2 E1 E2 [? ?]. unfold I. rewrite <- E1, <- E2. now split. }
  assert (Hkeep : forall m : M ReadStateResponse, preserves I m -> I (snd (m h))).
  { intros m Hm. apply Hm. now split. }
  apply Hkeep.
  apply preserves_bind; [now apply preserves_perform | intros sender].
  apply preserves_bind; [now apply preserves_getDelegationIdentity | intros d].
  now apply preserves_perform.
Qed.

(** The upgraded query up to its test of the status. *)
Lemma query_upgraded_run
  this canisterId options h sender w1 target sender' w2 signed w3 requestBody
  verified w4 :
  options_getPrincipal (world h) = (Returned sender, w1) ->
  Principal_from canisterId = Returned target ->
  delegationCondition this target = false ->
  options_getPrincipal w1 = (Returned sender', w2) ->
  signer_callCanister target sender' (methodName options) (arg options) w2
  = (Returned signed, w3) ->
  decode (contentMap signed) = Returned requestBody ->
  contentMismatch target sender' options requestBody = false ->
  Certificate_create (signer_certificate signed)
    (agent_rootKey (this_agent this) w3) target
    (opt_blsVerify (this_options this)) w3
  = (Returned verified, w4) ->
  query this canisterId options h
  = (if bool_decide
          (TextDecoder_decode
             <$> Certificate_lookup verified
                   [LabelBuf (TextEncoder_encode "request_status");
                    LabelBuf (requestIdOf requestBody);
                    LabelBuf (TextEncoder_encode "status")]
           = Some RequestStatusResponseStatus_Replied)
     then
       Returned
         (QueryReplied
            (Certificate_lookup verified
               [LabelBuf (TextEncoder_encode "request_status");
                LabelBuf (requestIdOf requestBody);
                LabelStr "reply"])
            {| ok := true; status := 200%Z;
               statusText :=
                 "Certificate with reply has been received over ICRC-25 JSON-RPC";
               body := None; headers := [] |})
     else Thrown (SignerAgentError "Certificate is missing reply"),
     mkHeap
       (delete (base64 (requestIdOf requestBody)) (readStateResponses h))
       (delegatedRequestIds h) (idb h) (custom h) w4
       (trace h
          ++ [GetPrincipal; GetPrincipal;
              CallCanister target sender' (methodName options) (arg options);
              CertificateCreate (signer_certificate signed) target])).
Proof.
  intros Hp Ht Hc Hp' Hs Hd Hm Hv.
  unfold query, bind at 1 2, perform, lift. rewrite Hp, Ht, Hc.
  unfold queryThroughSigner, bind.
  rewrite (call_not_delegated this canisterId options
             (moved h w1 [GetPrincipal]) sender' w2 target Hp' Ht Hc).
  rewrite (callThroughSigner_match sender' target options
             (moved (moved h w1 [GetPrincipal]) w2 [GetPrincipal])
             signed w3 requestBody Hs Hd Hm).
  unfold readStateResponses_get, readStateResponses_delete, observe, perform.
  cbn [readStateResponses world fst snd requestId certificate].
  rewrite lookup_insert_eq. cbn [world certificate]. rewrite Hv.
  cbn [app moved readStateResponses delegatedRequestIds idb custom world trace].
  rewrite delete_insert_eq.
  destruct (bool_decide _); unfold ret, throw, moved;
    cbn [readStateResponses delegatedRequestIds idb custom world trace];
    rewrite <- !app_assoc; reflexivity.
Qed.

(** The half of C5 the code has: a status that is absent or is not
    "replied" makes the upgraded query throw. *)
Lemma query_upgraded_not_replied
  this canisterId options h sender w1 target sender' w2 signed w3 requestBody
  verified w4 :
  options_getPrincipal (world h) = (Returned sender, w1) ->
  Principal_from canisterId = Returned target ->
  delegationCondition this target = false ->
  options_getPrincipal w1 = (Returned sender', w2) ->
  signer_callCanister target sender' (methodName options) (arg options) w2
  = (Returned signed, w3) ->
  decode (contentMap signed) = Returned requestBody ->
  contentMismatch target sender' options requestBody = false ->
  Certificate_create (signer_certificate signed)
    (agent_rootKey (this_agent this) w3) target
    (opt_blsVerify (this_options this)) w3
  = (Returned verified, w4) ->
  TextDecoder_decode
    <$> Certificate_lookup verified
          [LabelBuf (TextEncoder_encode "request_status");
           LabelBuf (requestIdOf requestBody);
           LabelBuf (TextEncoder_encode "status")]
  <> Some RequestStatusResponseStatus_Replied ->
  fst (query this canisterId options h)
  = Thrown (SignerAgentError "Certificate is missing reply").
Proof.
  intros Hp Ht Hc Hp' Hs Hd Hm Hv Hstatus.
  rewrite (query_upgraded_run _ _ _ _ _ _ _ _ _ _ _ _ _ _
             Hp Ht Hc Hp' Hs Hd Hm Hv).
  now rewrite (bool_decide_eq_false_2 _ Hstatus).
Qed.

(** C4. A query that is upgraded to a call through the signer, whose
    certificate verifies and holds the status "replied" for the request,
    returns what the certificate holds at ["request_status", requestId,
    "reply"]. The certified response is gone from [readStateResponses]
    afterwards, and a [readState] for the same identifier throws the
    response-not-found error. *)
Theorem query_upgraded_reply
  this canisterId options h sender w1 target sender' w2 signed w3 requestBody
  verified w4 statusBuf :
  reachable this h ->
  options_getPrincipal (world h) = (Returned sender, w1) ->
  Principal_from canisterId = Returned target ->
  delegationCondition this target = false ->
  options_getPrincipal w1 = (Returned sender', w2) ->
  signer_callCanister target sender' (methodName options) (arg options) w2
  = (Returned signed, w3) ->
  decode (contentMap signed) = Returned requestBody ->
  contentMismatch target sender' options requestBody = false ->
  Certificate_create (signer_certificate signed)
    (agent_rootKey (this_agent this) w3) target
    (opt_blsVerify (this_options this)) w3
  = (Returned verified, w4) ->
  Certificate_lookup verified
    [LabelBuf (TextEncoder_encode "request_status");
     LabelBuf (requestIdOf requestBody);
     LabelBuf (TextEncoder_encode "status")]
  = Some statusBuf ->
  TextDecoder_decode statusBuf = RequestStatusResponseStatus_Replied ->
  exists h',
    query this canisterId options h
    = (Returned
         (QueryReplied
            (Certificate_lookup verified
               [LabelBuf (TextEncoder_encode "request_status");
                LabelBuf (requestIdOf requestBody);
                LabelStr "reply"])
            {| ok := true; status := 200%Z;
               statusText :=
                 "Certificate with reply has been received over ICRC-25 JSON-RPC";
               body := None; headers := [] |}),
       h')
    /\ readStateResponses h'
       = delete (base64 (requestIdOf requestBody)) (readStateResponses h)
    /\ forall canisterId' options',
         requestIdFromReadStateOptions options' = Some (requestIdOf requestBody) ->
         readState this canisterId' options' h'
         = (Thrown (SignerAgentError
              "Invalid read state request, response could not be found"), h').
Proof.
  intros Hreach Hp Ht Hc Hp' Hs Hd Hm Hv Hl Hst.
  eexists. split; [|split].
  - rewrite (query_upgraded_run _ _ _ _ _ _ _ _ _ _ _ _ _ _
               Hp Ht Hc Hp' Hs Hd Hm Hv).
    rewrite Hl. cbn [fmap option_fmap option_map]. rewrite Hst.
    rewrite bool_decide_eq_true_2 by reflexivity. reflexivity.
  - reflexivity.
  - intros canisterId' options' Hid.
    apply readState_unknown with (requestId := requestIdOf requestBody);
      [exact Hid | | ].
    + cbn [delegatedRequestIds].
      destruct (reachable_one_collection this h Hreach) as [_ Hempty].
      rewrite (Hempty Hc). apply not_elem_of_empty.
    + cbn [readStateResponses]. apply lookup_delete_eq.
Qed.

(** C6. A [readState] for an identifier that has a marker in
    [delegatedRequestIds] removes the marker and hands the read to the HTTP
    agent with a delegation identity made anew: the base identity obtained
    for the principal [getPrincipal] returns, wrapped with the chain
    obtained for that principal and the public key of that base identity.
    What the HTTP agent answers is what [readState] answers. A [readState]
    for the same identifier after that throws the response-not-found
    error. *)
Theorem readState_delegated this canisterId options h requestId :
  reachable this h ->
  requestIdFromReadStateOptions options = Some requestId ->
  base64 requestId ∈ delegatedRequestIds h ->
  let h1 := snd (readState this canisterId options h) in
  delegatedRequestIds h1 = delegatedRequestIds h ∖ {[base64 requestId]}
  /\ (forall sender w baseIdentity h2 delegationChain h3,
        options_getPrincipal (world h) = (Returned sender, w) ->
        getDelegationBaseIdentity this sender
          (moved (snd (delegatedRequestIds_delete (base64 requestId) h)) w
             [GetPrincipal])
        = (Returned baseIdentity, h2) ->
        getDelegationChain this sender (getPublicKey_toDer baseIdentity) h2
        = (Returned delegationChain, h3) ->
        let delegationIdentity :=
          Some (fromDelegation baseIdentity delegationChain) in
        getDelegationIdentity this sender
          (moved (snd (delegatedRequestIds_delete (base64 requestId) h)) w
             [GetPrincipal])
        = (Returned delegationIdentity, h3)
        /\ readState this canisterId options h
           = (let (answer, w') :=
                agent_readState (this_agent this) canisterId options
                  delegationIdentity (world h3) in
              (answer,
               moved h3 w'
                 [AgentReadState canisterId options delegationIdentity])))
  /\ (forall canisterId' options',
        requestIdFromReadStateOptions options' = Some requestId ->
        readState this canisterId' options' h1
        = (Thrown (SignerAgentError
             "Invalid read state request, response could not be found"), h1)).
Proof.
  intros Hreach Hid Hmark h1.
  pose proof (readState_marked this canisterId options h requestId Hid Hmark)
    as Hrun.
  pose proof (forwarded_read_collections this canisterId options
                (snd (delegatedRequestIds_delete (base64 requestId) h)))
    as [Hresp Hmarks].
  cbv zeta in Hresp, Hmarks. rewrite <- Hrun in Hresp, Hmarks.
  fold h1 in Hresp, Hmarks. simpl in Hresp, Hmarks.
  destruct (reachable_one_collection this h Hreach) as [Hd Hs].
  assert (Hdel : delegates this = true).
  { destruct (delegates this); [reflexivity|].
    rewrite (Hs eq_refl) in Hmark. set_solver. }
  split; [exact Hmarks | split].
  - intros sender w baseIdentity h2 delegationChain h3 Hp Hbase Hchain
      delegationIdentity.
    destruct (delegationCondition_delegation this _ Hdel) as [d Hopt].
    assert (Hg : getDelegationIdentity this sender
                   (moved (snd (delegatedRequestIds_delete (base64 requestId) h))
                      w [GetPrincipal])
                 = (Returned delegationIdentity, h3)).
    { unfold getDelegationIdentity. rewrite Hopt.
      unfold bind. rewrite Hbase, Hchain. reflexivity. }
    split; [exact Hg|].
    rewrite Hrun. unfold bind at 1 2, perform at 1.
    cbn [delegatedRequestIds_delete snd world]. rewrite Hp.
    cbn [delegatedRequestIds_delete snd] in Hg. rewrite Hg. reflexivity.
  - intros canisterId' options' Hid'.
    apply readState_unknown with (requestId := requestId); [exact Hid' | |].
    + rewrite Hmarks. intros [_ Hn]%elem_of_difference.
      apply Hn. now apply elem_of_singleton.
    + rewrite Hresp, (Hd Hdel). apply lookup_empty.
Qed.


(** ** Acquiring a delegation chain *)

Lemma requestDelegationChain_run this principal pk h newChain w terminal :
  signer_getDelegation principal pk (delegation_targets_opt this) (world h)
  = (Returned newChain, w) ->
  last (delegations newChain) = Some terminal ->
  requestDelegationChain this principal pk h
  = (Returned newChain,
     snd (storage_set (this_storage this)
            ("delegation-chain-"
               +:+ Principal_toText
                     (Principal_selfAuthenticating (publicKey newChain))
               +:+ "-" +:+ base64 (pubkey (delegation terminal)))
            (SVString (DelegationChain_stringify newChain))
            (moved h w
               [GetDelegation principal pk (delegation_targets_opt this)]))).
Proof.
  intros Hs Hl. unfold requestDelegationChain, bind, perform, setDelegationChain.
  rewrite Hs, Hl. reflexivity.
Qed.

Lemma store_of_storage_set s key value h :
  store_of s (snd (storage_set s key value h)) = <[key := value]> (store_of s h).
Proof. destruct s; reflexivity. Qed.

Lemma trace_storage_set s key value h :
  trace (snd (storage_set s key value h))
  = (trace h ++ [StorageSet s key value])%list.
Proof. destruct s; reflexivity. Qed.

(** C8, amended. A chain stored under the key of (principal, public key)
    that is valid for the configured targets is returned without a call to
    the signer. When no chain is stored there, or the stored one is not
    valid, the signer is asked once, and the chain it returns is stored
    under the key made from that chain (the self-authenticating principal of
    its public key and the public key of its last delegation), replacing
    what was under that key, and returned. The entry under the key of
    (principal, public key) is replaced when the two keys are the same, and
    stays as it was when they differ. *)
Theorem chain_acquisition this principal pk h :
  let s := this_storage this in
  let scope := delegation_targets_opt this in
  let key :=
    "delegation-chain-" +:+ Principal_toText principal +:+ "-" +:+ base64 pk in
  (forall json cached,
     store_of s h !! key = Some (SVString json) ->
     json <> "" ->
     DelegationChain_fromJSON json = Returned cached ->
     isDelegationValid cached scope (world h) = true ->
     getDelegationChain this principal pk h
     = (Returned cached, moved h (world h) [StorageGet s key]))
  /\ (forall newChain w terminal,
        store_of s h !! key = None
        \/ store_of s h !! key = Some (SVString "")
        \/ (exists json cached,
              store_of s h !! key = Some (SVString json)
              /\ DelegationChain_fromJSON json = Returned cached
              /\ isDelegationValid cached scope (world h) = false) ->
        signer_getDelegation principal pk scope (world h)
        = (Returned newChain, w) ->
        last (delegations newChain) = Some terminal ->
        let key' :=
          "delegation-chain-"
            +:+ Principal_toText
                  (Principal_selfAuthenticating (publicKey newChain))
            +:+ "-" +:+ base64 (pubkey (delegation terminal)) in
        let value := SVString (DelegationChain_stringify newChain) in
        exists h',
          getDelegationChain this principal pk h = (Returned newChain, h')
          /\ trace h'
             = (trace h
                  ++ [StorageGet s key; GetDelegation principal pk scope;
                      StorageSet s key' value])%list
          /\ store_of s h' = <[key' := value]> (store_of s h)
          /\ (key' = key -> store_of s h' !! key = Some value)
          /\ (key' <> key -> store_of s h' !! key = store_of s h !! key)).
Proof.
  intros s scope key. split.
  - intros json cached Hget Hne Hjson Hvalid.
    unfold getDelegationChain, bind, storage_get. fold s key. rewrite Hget.
    apply String.eqb_neq in Hne. rewrite Hne.
    unfold lift, observe. rewrite Hjson. cbn [world moved].
    fold scope. rewrite Hvalid. reflexivity.
  - intros newChain w terminal Hstale Hsigner Hlast key' value.
    assert (Hrun : getDelegationChain this principal pk h
                   = requestDelegationChain this principal pk
                       (moved h (world h) [StorageGet s key])).
    { unfold getDelegationChain, bind, storage_get. fold s key.
      destruct Hstale as [-> | [-> | (json & cached & -> & Hjson & Hinvalid)]];
        try reflexivity.
      destruct (String.eqb json ""); [reflexivity|].
      unfold lift, observe. rewrite Hjson. cbn [world moved].
      fold scope. rewrite Hinvalid. reflexivity. }
    rewrite Hrun.
    rewrite (requestDelegationChain_run this principal pk
               (moved h (world h) [StorageGet s key]) newChain w terminal
               Hsigner Hlast).
    fold s scope key' value.
    eexists. split; [reflexivity|].
    rewrite trace_storage_set, store_of_storage_set.
    cbn [moved trace]. rewrite <- !app_assoc.
    assert (Hstore : store_of s
                       (moved (moved h (world h) [StorageGet s key]) w
                          [GetDelegation principal pk scope])
                     = store_of s h) by (destruct s; reflexivity).
    rewrite Hstore.
    repeat split.
    + intros ->. apply lookup_insert_eq.
    + intros Hne. now apply lookup_insert_ne.
Qed.

End Properties.

(** * The properties on the scripted environment *)

Import Demo.

(** C1. The targets list does not restrict the delegated path: with
    [targets = [ledger]], a call and a query to the canister [dex], which
    is not in the list, are made over the HTTP agent with the delegation
    identity, and the signer's [callCanister] is not used. The claim wants
    them routed through the signer. *)
Theorem target_outside_list_is_delegated :
  opt_delegation (this_options restricted) ≫= targets = Some [canister]
  /\ other_canister <> canister
  /\ delegationCondition restricted other_canister = true
  /\ (let h := snd (call restricted (IsPrincipal other_canister) greet start) in
      existsb is_AgentCall (trace h) = true
      /\ existsb is_CallCanister (trace h) = false)
  /\ (let h := snd (query restricted (IsPrincipal other_canister) greet start) in
      existsb is_AgentQuery (trace h) = true
      /\ existsb is_CallCanister (trace h) = false).
Proof.
  split; [reflexivity|]. split; [discriminate|].
  split; [reflexivity|]. split; split; vm_compute; reflexivity.
Qed.

(** C5. A certificate whose status is "replied" but which holds nothing at
    the reply path does not make the upgraded query throw: the query returns
    a reply whose payload is undefined. The claim wants an error. *)
Theorem query_returns_without_reply :
  let h := fresh_heap ∅ ∅ without_reply in
  demo_lookup (tree without_reply) (status_path (list_byte_of_string "greet"))
  = Some (list_byte_of_string "replied")
  /\ demo_lookup (tree without_reply) (reply_path (list_byte_of_string "greet"))
     = None
  /\ fst (query signer_only (IsPrincipal canister) greet h)
     = Returned
         (QueryReplied None
            (http "Certificate with reply has been received over ICRC-25 JSON-RPC")).
Proof. repeat split; vm_compute; reflexivity. Qed.

(** C10. The constructor never takes the storage of the options: the agent
    made with a storage object supplied keeps its identity and its chain in
    the [IdbStorage], and the supplied object is neither read nor written.
    The claim wants the supplied object used. *)
Theorem supplied_storage_is_not_used :
  (forall options, this_storage (constructor options) = IdbStorage)
  /\ opt_storage (this_options with_storage) = Some OptionsStorage
  /\ (let h := snd (call with_storage (IsPrincipal canister) greet start) in
      custom h = ∅
      /\ existsb on_OptionsStorage (trace h) = false
      /\ idb h !! "delegation-identity-alice"
         = Some (SVKeyPair (list_byte_of_string "P256"))
      /\ idb h !! "delegation-chain-wallet-wallet" = Some (SVString "wallet")).
Proof.
  split; [reflexivity|]. split; [reflexivity|].
  repeat split; vm_compute; reflexivity.
Qed.

(** C8 as stated fails: the chain stored for (alice, P256) has expired, the
    signer is asked, and the chain it returns is stored under the key made
    from that chain, which is another key; the expired entry is still there
    afterwards, not overwritten. *)
Lemma expired_entry_is_not_overwritten :
  let key := "delegation-chain-alice-P256" in
  let r := getDelegationChain restricted alice (list_byte_of_string "P256") stale in
  idb stale !! key = Some (SVString "old")
  /\ (exists cached,
        demo_fromJSON "old" = Returned cached
        /\ isDelegationValid cached (Some [canister]) (world stale) = false)
  /\ fst r = Returned (issued script)
  /\ existsb is_GetDelegation (trace (snd r)) = true
  /\ idb (snd r) !! key = Some (SVString "old")
  /\ idb (snd r) !! key
     <> Some (SVString (DelegationChain_stringify (issued script))).
Proof.
  split; [vm_compute; reflexivity|].
  split; [eexists; split; [reflexivity | vm_compute; reflexivity]|].
  split; [vm_compute; reflexivity|].
  split; [vm_compute; reflexivity|].
  split; [vm_compute; reflexivity|].
  vm_compute. discriminate.
Qed.

(** ** The theorems at work *)

Lemma call_through_signer_identifier_witness :
  let r := call signer_only (IsPrincipal canister) greet start in
  fst r
  = Returned {| requestId := list_byte_of_string "greet";
                response := http "Call has been sent over ICRC-25 JSON-RPC" |}
  /\ readStateResponses (snd r) !! "greet"
     = Some {| certificate := list_byte_of_string "cert" |}.
Proof.
  intros r. unfold r.
  rewrite (call_through_signer_identifier signer_only (IsPrincipal canister)
             greet start alice script canister signed_greet script
             (decoded "greet")) by reflexivity.
  split; [reflexivity | apply lookup_insert_eq].
Defined.

Lemma call_through_signer_mismatch_witness :
  exists h',
    call signer_only (IsPrincipal canister) greet (fresh_heap ∅ ∅ tampering)
    = (Thrown (SignerAgentError "Received invalid content map from signer "), h')
    /\ readStateResponses h' = ∅
    /\ delegatedRequestIds h' = ∅.
Proof.
  apply (call_through_signer_mismatch signer_only (IsPrincipal canister) greet
           (fresh_heap ∅ ∅ tampering) alice tampering canister
           {| contentMap := list_byte_of_string "drain";
              signer_certificate := list_byte_of_string "cert" |}
           tampering (decoded "drain")); try reflexivity.
  right; right; left. discriminate.
Defined.

Lemma query_upgraded_reply_witness :
  exists h',
    query signer_only (IsPrincipal canister) greet start
    = (Returned
         (QueryReplied (Some [x01; x02; x03])
            (http "Certificate with reply has been received over ICRC-25 JSON-RPC")),
       h')
    /\ readStateResponses h' !! "greet" = None
    /\ readState signer_only (IsPrincipal canister)
         (status_of (list_byte_of_string "greet")) h'
       = (Thrown (SignerAgentError
            "Invalid read state request, response could not be found"), h').
Proof.
  destruct (query_upgraded_reply signer_only (IsPrincipal canister) greet start
              alice script canister alice script signed_greet script
              (decoded "greet") (tree script) script
              (list_byte_of_string "replied"))
    as (h' & Hq & Hd & Hr); try reflexivity.
  { apply reachable_fresh. }
  exists h'. split; [exact Hq|]. split.
  - rewrite Hd. apply lookup_delete_eq.
  - apply Hr. reflexivity.
Defined.

Lemma readState_delegated_witness :
  let h := exec restricted (OpCall (IsPrincipal canister) greet) start in
  let options := status_of (list_byte_of_string "rid-1") in
  let h1 := snd (readState restricted (IsPrincipal canister) options h) in
  "rid-1" ∈ delegatedRequestIds h
  /\ delegatedRequestIds h1 = delegatedRequestIds h ∖ {["rid-1"]}
  /\ fst (readState restricted (IsPrincipal canister) options h)
     = Returned {| certificate := list_byte_of_string "state" |}
  /\ last (trace h1)
     = Some (AgentReadState (IsPrincipal canister) options
               (Some session_identity))
  /\ readState restricted (IsPrincipal canister) options h1
     = (Thrown (SignerAgentError
          "Invalid read state request, response could not be found"), h1).
Proof.
  intros h options h1.
  assert (Hmark : "rid-1" ∈ delegatedRequestIds h).
  { apply (bool_decide_eq_true_1 ("rid-1" ∈ delegatedRequestIds h)).
    vm_compute. reflexivity. }
  destruct (readState_delegated restricted (IsPrincipal canister) options h
              (list_byte_of_string "rid-1"))
    as (Hm & Hforward & Hr).
  - apply reachable_exec, reachable_fresh.
  - reflexivity.
  - exact Hmark.
  - set (h0 := moved
                 (snd (delegatedRequestIds_delete
                         (base64 (list_byte_of_string "rid-1")) h))
                 script [GetPrincipal]).
    destruct (Hforward alice script session_key
                (snd (getDelegationBaseIdentity restricted alice h0))
                (issued script)
                (snd (getDelegationChain restricted alice
                        (getPublicKey_toDer session_key)
                        (snd (getDelegationBaseIdentity restricted alice h0)))))
      as (_ & Hrun); [reflexivity | vm_compute; reflexivity
                     | vm_compute; reflexivity |].
    split; [exact Hmark|]. split; [exact Hm|].
    split; [now rewrite Hrun|].
    split; [unfold h1; rewrite Hrun; vm_compute; reflexivity|].
    apply Hr. reflexivity.
Defined.

Lemma requestId_extraction_witness :
  requestIdFromReadStateOptions bad_shape = None
  /\ forall h,
      (forall canisterId,
         readState signer_only canisterId bad_shape h
         = (Thrown (SignerAgentError
              "Invalid read state request, request id could not be found in options"),
            h))
      /\ createReadStateRequest signer_only bad_shape h
         = (Thrown (SignerAgentError
              "Invalid read state request, request id could not be found in options"),
            h).
Proof.
  apply (proj2 (requestId_extraction signer_only bad_shape)).
  intros (segment & requestId & Hshape & _). discriminate Hshape.
Defined.

Lemma chain_acquisition_witness :
  getDelegationChain restricted alice (list_byte_of_string "P256") cached
  = (Returned (chain_of (list_byte_of_string "chain-of-alice-wallet") 21),
     moved cached script
       [StorageGet IdbStorage "delegation-chain-alice-P256"])
  /\ exists h',
       getDelegationChain restricted alice (list_byte_of_string "P256") stale
       = (Returned (issued script), h')
       /\ idb h' !! "delegation-chain-wallet-wallet" = Some (SVString "wallet")
       /\ idb h' !! "delegation-chain-alice-P256" = Some (SVString "old").
Proof.
  destruct (chain_acquisition restricted alice (list_byte_of_string "P256") cached)
    as [Hreuse _].
  destruct (chain_acquisition restricted alice (list_byte_of_string "P256") stale)
    as [_ Hrequest].
  split.
  - apply (Hreuse "chain-of-alice-wallet"); [reflexivity | discriminate | reflexivity..].
  - destruct (Hrequest (issued script) script
                {| delegation :=
                     {| pubkey := list_byte_of_string "wallet";
                        expiration := 100; delegation_targets := None |};
                   signature := [] |})
      as (h' & Hrun & _ & Hstore & _ & Hother); [| reflexivity | reflexivity |].
    + right; right. exists "old", (chain_of (list_byte_of_string "old") 3).
      repeat split; reflexivity.
    + exists h'. split; [exact Hrun|]. split.
      * change (store_of (this_storage restricted) h'
                  !! "delegation-chain-wallet-wallet"
                = Some (SVString "wallet")).
        rewrite Hstore. apply lookup_insert_eq.
      * change (store_of (this_storage restricted) h'
                  !! "delegation-chain-alice-P256"
                = Some (SVString "old")).
        etransitivity; [apply Hother; vm_compute; discriminate | reflexivity].
Defined.

Lemma collections_exclusive_witness :
  reachable restricted (exec restricted (OpCall (IsPrincipal canister) greet) start)
  /\ ~ (is_Some
          (readStateResponses
             (exec restricted (OpCall (IsPrincipal canister) greet) start)
             !! base64 (list_byte_of_string "rid-1"))
        /\ base64 (list_byte_of_string "rid-1")
             ∈ delegatedRequestIds
                 (exec restricted (OpCall (IsPrincipal canister) greet) start)).
Proof.
  assert (Hreach : reachable restricted
                     (exec restricted (OpCall (IsPrincipal canister) greet) start))
    by apply reachable_exec, reachable_fresh.
  split; [exact Hreach|].
  apply (collections_exclusive restricted _ Hreach).
Defined.

(** * Further properties of the agent *)

Section Further.
Context {HH : Handles} {CC : Collaborators}.

(** ** Rules for [steps] *)

Section StepRules.
Variable R : Heap -> Heap -> Prop.
Hypothesis R_refl : forall h, R h h.
Hypothesis R_trans : forall h1 h2 h3, R h1 h2 -> R h2 h3 -> R h1 h3.

Lemma steps_ret {A} (a : A) : steps R (ret a).
Proof. intros h. apply R_refl. Qed.

Lemma steps_throw {A} e : steps R (@throw _ A e).
Proof. intros h. apply R_refl. Qed.

Lemma steps_lift {A} (o : Outcome A) : steps R (lift o).
Proof. intros h. apply R_refl. Qed.

Lemma steps_observe {A} (f : World -> A) : steps R (observe f).
Proof. intros h. apply R_refl. Qed.

Lemma steps_readStateResponses_get key : steps R (readStateResponses_get key).
Proof. intros h. apply R_refl. Qed.

Lemma steps_delegatedRequestIds_has key : steps R (delegatedRequestIds_has key).
Proof. intros h. apply R_refl. Qed.

Lemma steps_bind_returned {A B} (m : M A) (k : A -> M B) (Q : A -> Prop) :
  steps R m ->
  (forall h a, fst (m h) = Returned a -> Q a) ->
  (forall a, Q a -> steps R (k a)) ->
  steps R (bind m k).
Proof.
  intros Hm HQ Hk h. unfold bind.
  specialize (Hm h). specialize (HQ h).
  destruct (m h) as [[a|e] h']; simpl in *; [|exact Hm].
  apply R_trans with h'; [exact Hm|]. apply (Hk a). now apply HQ.
Qed.

Lemma steps_bind {A B} (m : M A) (k : A -> M B) :
  steps R m -> (forall a, steps R (k a)) -> steps R (bind m k).
Proof.
  intros Hm Hk. apply (steps_bind_returned m k (fun _ => True)); auto.
Qed.

End StepRules.

(** ** Recorded calls *)

Lemma emitting_refl P h : emitting P h h.
Proof. exists []. split; [now rewrite app_nil_r | reflexivity]. Qed.

Lemma emitting_trans P h1 h2 h3 :
  emitting P h1 h2 -> emitting P h2 h3 -> emitting P h1 h3.
Proof.
  intros (e1 & E1 & F1) (e2 & E2 & F2). exists (e1 ++ e2)%list. split.
  - now rewrite E2, E1, <- app_assoc.
  - now rewrite forallb_app, F1, F2.
Qed.

Lemma emitting_weaken (P Q : Event -> bool) h h' :
  (forall e, P e = true -> Q e = true) -> emitting P h h' -> emitting Q h h'.
Proof.
  intros HPQ (events & E & F). exists events. split; [exact E|].
  rewrite forallb_forall in *. auto.
Qed.

Lemma emitting_one P h h' e :
  trace h' = (trace h ++ [e])%list -> P e = true -> emitting P h h'.
Proof. intros E HP. exists [e]. split; [exact E | simpl; now rewrite HP]. Qed.

Lemma emitting_same P h h' : trace h' = trace h -> emitting P h h'.
Proof. intros E. exists []. split; [now rewrite app_nil_r | reflexivity]. Qed.

Lemma prefix_append (p x : string) : String.prefix p (p +:+ x) = true.
Proof.
  induction p as [|a p IH]; simpl; [now destruct x|].
  destruct (Ascii.ascii_dec a a); [exact IH | congruence].
Qed.

Lemma agent_key_identity x : agent_key ("delegation-identity-" +:+ x) = true.
Proof. unfold agent_key. now rewrite prefix_append. Qed.

Lemma agent_key_chain x : agent_key ("delegation-chain-" +:+ x) = true.
Proof. unfold agent_key. rewrite (prefix_append "delegation-chain-"). apply orb_true_r. Qed.

(** ** What [getDelegationIdentity] does to the heap *)

Lemma delegation_step_refl s h : delegation_step s h h.
Proof. split; [apply emitting_refl | repeat split; auto]. Qed.

Lemma delegation_step_trans s h1 h2 h3 :
  delegation_step s h1 h2 -> delegation_step s h2 h3 -> delegation_step s h1 h3.
Proof.
  intros (E1 & R1 & D1 & S1 & K1) (E2 & R2 & D2 & S2 & K2).
  split; [now apply emitting_trans with h2|].
  split; [congruence|]. split; [congruence|]. split.
  - intros s' Hne. rewrite (S2 s' Hne). now apply S1.
  - intros key Hk. rewrite (K2 key Hk). now apply K1.
Qed.

Lemma delegation_step_perform {A} s e (f : Eff A) :
  delegation_event s e = true -> steps (delegation_step s) (perform e f).
Proof.
  intros He h. unfold perform. destruct (f (world h)) as [r w]. simpl.
  split; [now apply emitting_one with e | repeat split; auto].
Qed.

Lemma delegation_step_storage_get s key :
  agent_key key = true -> steps (delegation_step s) (storage_get s key).
Proof.
  intros Hk h. split; [|repeat split; auto].
  apply emitting_one with (StorageGet s key); [reflexivity|].
  simpl. now rewrite bool_decide_eq_true_2, Hk.
Qed.

Lemma delegation_step_storage_set s key value :
  agent_key key = true -> steps (delegation_step s) (storage_set s key value).
Proof.
  intros Hk h. split.
  - apply emitting_one with (StorageSet s key value);
      [destruct s; reflexivity|].
    simpl. now rewrite bool_decide_eq_true_2, Hk.
  - split; [destruct s; reflexivity|]. split; [destruct s; reflexivity|].
    split.
    + intros s' Hne. destruct s, s'; simpl; congruence.
    + intros key' Hk'. rewrite store_of_storage_set.
      apply lookup_insert_ne. congruence.
Qed.

Ltac delegation_steps :=
  repeat first
    [ apply steps_ret | apply steps_throw | apply steps_lift
    | apply steps_observe
    | apply delegation_step_refl
    | apply delegation_step_perform; reflexivity
    | apply delegation_step_storage_get;
        first [apply agent_key_identity | apply agent_key_chain]
    | apply delegation_step_storage_set;
        first [apply agent_key_identity | apply agent_key_chain]
    | solve [auto]
    | apply steps_bind; [apply delegation_step_trans | | intros ?]
    | match goal with
      | |- steps _ (match ?x with _ => _ end) => destruct x
      end ].

Lemma getDelegationChain_step this principal pk :
  steps (delegation_step (this_storage this))
    (getDelegationChain this principal pk).
Proof.
  unfold getDelegationChain, requestDelegationChain, setDelegationChain.
  delegation_steps.
Qed.

Lemma getDelegationBaseIdentity_step this sender :
  steps (delegation_step (this_storage this))
    (getDelegationBaseIdentity this sender).
Proof.
  unfold getDelegationBaseIdentity, newDelegationBaseIdentity,
    createDelegationBaseIdentity, setDelegationBaseIdentity.
  delegation_steps.
Qed.

Lemma getDelegationIdentity_step this principal :
  steps (delegation_step (this_storage this))
    (getDelegationIdentity this principal).
Proof.
  pose proof (getDelegationChain_step this) as Hchain.
  pose proof (getDelegationBaseIdentity_step this) as Hbase.
  unfold getDelegationIdentity. delegation_steps.
Qed.

(** ** Where the operations read and write *)

Lemma own_step_refl s h : own_step s h h.
Proof. split; [apply emitting_refl | split; auto]. Qed.

Lemma own_step_trans s h1 h2 h3 :
  own_step s h1 h2 -> own_step s h2 h3 -> own_step s h1 h3.
Proof.
  intros (E1 & S1 & K1) (E2 & S2 & K2).
  split; [now apply emitting_trans with h2|]. split.
  - intros s' Hne. rewrite (S2 s' Hne). now apply S1.
  - intros key Hk. rewrite (K2 key Hk). now apply K1.
Qed.

Lemma delegation_event_own s e :
  delegation_event s e = true -> own_storage_event s e = true.
Proof. destruct e; simpl; auto. Qed.

Lemma delegation_step_own s h h' : delegation_step s h h' -> own_step s h h'.
Proof.
  intros (E & _ & _ & S & K). split; [|split; [exact S | exact K]].
  apply (emitting_weaken (delegation_event s)); [apply delegation_event_own | exact E].
Qed.

Lemma own_step_perform {A} s e (f : Eff A) :
  own_storage_event s e = true -> steps (own_step s) (perform e f).
Proof.
  intros He h. unfold perform. destruct (f (world h)) as [r w]. simpl.
  split; [now apply emitting_one with e | split; auto].
Qed.

(** A change of the two collections alone. *)
Lemma own_step_collections s h h' :
  trace h' = trace h -> idb h' = idb h -> custom h' = custom h ->
  own_step s h h'.
Proof.
  intros Et Ei Ec. split; [now apply emitting_same|]. split.
  - intros [] _; simpl; assumption.
  - intros key _. destruct s; simpl; congruence.
Qed.

Lemma own_step_getDelegationIdentity this principal :
  steps (own_step (this_storage this)) (getDelegationIdentity this principal).
Proof. intros h. apply delegation_step_own, getDelegationIdentity_step. Qed.

Ltac own_steps :=
  repeat first
    [ apply steps_ret | apply steps_throw | apply steps_lift
    | apply steps_observe | apply steps_readStateResponses_get
    | apply steps_delegatedRequestIds_has
    | apply own_step_refl
    | apply own_step_perform; reflexivity
    | apply own_step_getDelegationIdentity
    | intros ?; apply own_step_collections; reflexivity
    | solve [auto]
    | apply steps_bind; [apply own_step_trans | | intros ?]
    | match goal with
      | |- steps _ (match ?x with _ => _ end) => destruct x
      end ].

Lemma own_step_call this canisterId options :
  steps (own_step (this_storage this)) (call this canisterId options).
Proof. unfold call, callThroughSigner. own_steps. Qed.

Lemma own_step_query this canisterId options :
  steps (own_step (this_storage this)) (query this canisterId options).
Proof.
  pose proof (own_step_call this) as Hcall.
  unfold query, queryThroughSigner. own_steps.
Qed.

Lemma own_step_readState this canisterId options :
  steps (own_step (this_storage this)) (readState this canisterId options).
Proof. unfold readState. own_steps. Qed.

Lemma own_step_createReadStateRequest this options :
  steps (own_step (this_storage this)) (createReadStateRequest this options).
Proof. unfold createReadStateRequest. own_steps. Qed.

Lemma own_step_exec this op h : own_step (this_storage this) h (exec this op h).
Proof.
  destruct op; simpl.
  - apply own_step_call.
  - apply own_step_query.
  - apply own_step_readState.
  - apply own_step_createReadStateRequest.
Qed.

(** X2. Whatever the operation and the heap, the calls it makes to a
    store are to [this.storage] and under a key that starts with
    "delegation-identity-" or "delegation-chain-"; every other store, and
    every entry of [this.storage] under another key, is left as it was. *)
Theorem operations_keep_to_own_storage this op h :
  emitting (own_storage_event (this_storage this)) h (exec this op h)
  /\ (forall s',
        s' <> this_storage this -> store_of s' (exec this op h) = store_of s' h)
  /\ (forall key,
        agent_key key = false ->
        store_of (this_storage this) (exec this op h) !! key
        = store_of (this_storage this) h !! key).
Proof. exact (own_step_exec this op h). Qed.

(** X3. When the options name a storage object that is not the
    [IdbStorage] itself, the agent the constructor builds never reads or
    writes the storage object its options name: no operation records a call
    to it, and its content is the same before and after. *)
Theorem options_storage_untouched options s op h :
  opt_storage options = Some s ->
  s <> IdbStorage ->
  emitting (fun e => negb (on_storage s e)) h (exec (constructor options) op h)
  /\ store_of s (exec (constructor options) op h) = store_of s h.
Proof.
  intros _ Hs.
  destruct (own_step_exec (constructor options) op h) as (E & S & _). split.
  - apply (emitting_weaken (own_storage_event IdbStorage)); [|exact E].
    intros [] He; try reflexivity; simpl in *;
      apply negb_true_iff, bool_decide_eq_false_2;
      apply andb_true_iff in He as [He _];
      apply bool_decide_eq_true_1 in He; congruence.
  - now apply (S s).
Qed.

(** ** The two routes *)

Lemma signer_step_refl h : signer_step h h.
Proof. split; [apply emitting_refl | auto]. Qed.

Lemma signer_step_trans h1 h2 h3 :
  signer_step h1 h2 -> signer_step h2 h3 -> signer_step h1 h3.
Proof.
  intros (E1 & I1 & C1) (E2 & I2 & C2).
  split; [now apply emitting_trans with h2 | split; congruence].
Qed.

Lemma signer_step_perform {A} e (f : Eff A) :
  signer_event e = true -> steps signer_step (perform e f).
Proof.
  intros He h. unfold perform. destruct (f (world h)) as [r w]. simpl.
  split; [now apply emitting_one with e | auto].
Qed.

Lemma signer_step_collections h h' :
  trace h' = trace h -> idb h' = idb h -> custom h' = custom h ->
  signer_step h h'.
Proof. intros Et Ei Ec. split; [now apply emitting_same | auto]. Qed.

Ltac signer_steps :=
  repeat first
    [ apply steps_ret | apply steps_throw | apply steps_lift
    | apply steps_observe | apply steps_readStateResponses_get
    | apply steps_delegatedRequestIds_has
    | apply signer_step_refl
    | apply signer_step_perform; reflexivity
    | intros ?; apply signer_step_collections; reflexivity
    | solve [auto]
    | apply steps_bind; [apply signer_step_trans | | intros ?]
    | match goal with
      | |- steps _ (match ?x with _ => _ end) => destruct x
      end ].

Lemma signer_step_callThroughSigner sender target options :
  steps signer_step (callThroughSigner sender target options).
Proof. unfold callThroughSigner. signer_steps. Qed.

Lemma signer_step_call this canisterId options :
  delegates this = false -> steps signer_step (call this canisterId options).
Proof.
  intros Hd. pose proof signer_step_callThroughSigner as Hsigner.
  unfold call.
  apply steps_bind; [apply signer_step_trans | signer_steps | intros sender].
  apply steps_bind; [apply signer_step_trans | signer_steps | intros target].
  destruct (delegationCondition this target) eqn:E; [|apply Hsigner].
  change (delegates this = true) in E. congruence.
Qed.

Lemma signer_step_query this canisterId options :
  delegates this = false -> steps signer_step (query this canisterId options).
Proof.
  intros Hd. pose proof (signer_step_call this canisterId options Hd) as Hcall.
  unfold query.
  apply steps_bind; [apply signer_step_trans | signer_steps | intros sender].
  apply steps_bind; [apply signer_step_trans | signer_steps | intros target].
  destruct (delegationCondition this target) eqn:E.
  { change (delegates this = true) in E. congruence. }
  unfold queryThroughSigner. signer_steps.
Qed.

Lemma signer_step_readState this canisterId options h :
  delegatedRequestIds h = ∅ ->
  signer_step h (snd (readState this canisterId options h)).
Proof.
  intros Hempty. unfold readState.
  destruct (requestIdFromReadStateOptions options) as [requestId|];
    [|apply signer_step_refl].
  unfold bind at 1, delegatedRequestIds_has. rewrite Hempty.
  rewrite bool_decide_eq_false_2 by apply not_elem_of_empty.
  match goal with
  | |- signer_step _ (snd (?m _)) => assert (Hrest : steps signer_step m)
  end.
  { signer_steps. }
  apply Hrest.
Qed.

Lemma signer_step_createReadStateRequest this options h :
  delegatedRequestIds h = ∅ ->
  signer_step h (snd (createReadStateRequest this options h)).
Proof.
  intros Hempty. unfold createReadStateRequest.
  destruct (requestIdFromReadStateOptions options) as [requestId|];
    [|apply signer_step_refl].
  unfold bind at 1, delegatedRequestIds_has. rewrite Hempty.
  rewrite bool_decide_eq_false_2 by apply not_elem_of_empty.
  apply signer_step_refl.
Qed.

Lemma call_with_agent this agent canisterId options h :
  delegates this = false ->
  call (with_agent this agent) canisterId options h
  = call this canisterId options h.
Proof.
  intros Hd. unfold call, bind, perform, lift.
  destruct (options_getPrincipal (world h)) as [[sender|e] w]; [|reflexivity].
  destruct (Principal_from canisterId) as [target|e]; [|reflexivity].
  change (delegationCondition (with_agent this agent) target)
    with (delegates this).
  change (delegationCondition this target) with (delegates this).
  now rewrite Hd.
Qed.

Lemma query_with_agent this agent canisterId options h :
  delegates this = false ->
  (forall w, agent_rootKey agent w = agent_rootKey (this_agent this) w) ->
  query (with_agent this agent) canisterId options h
  = query this canisterId options h.
Proof.
  intros Hd Hroot. unfold query, bind at 1 2 4 5, perform, lift.
  destruct (options_getPrincipal (world h)) as [[sender|e] w]; [|reflexivity].
  destruct (Principal_from canisterId) as [target|e]; [|reflexivity].
  change (delegationCondition (with_agent this agent) target)
    with (delegates this).
  change (delegationCondition this target) with (delegates this).
  rewrite Hd. unfold queryThroughSigner, bind at 1 6.
  rewrite (call_with_agent this agent canisterId options _ Hd).
  destruct (call this canisterId options (moved h w [GetPrincipal]))
    as [[submitResponse|e] h1]; [|reflexivity].
  unfold bind at 1 5, readStateResponses_get.
  destruct (readStateResponses h1 !! base64 (requestId submitResponse));
    [|reflexivity].
  unfold bind, readStateResponses_delete, observe.
  cbn [with_agent this_agent this_options world]. now rewrite Hroot.
Qed.

Lemma readState_with_agent this agent canisterId options h :
  delegatedRequestIds h = ∅ ->
  readState (with_agent this agent) canisterId options h
  = readState this canisterId options h.
Proof.
  intros Hempty. unfold readState.
  destruct (requestIdFromReadStateOptions options) as [requestId|];
    [|reflexivity].
  unfold bind, delegatedRequestIds_has. rewrite Hempty.
  now rewrite bool_decide_eq_false_2 by apply not_elem_of_empty.
Qed.

Lemma createReadStateRequest_with_agent this agent options h :
  delegatedRequestIds h = ∅ ->
  createReadStateRequest (with_agent this agent) options h
  = createReadStateRequest this options h.
Proof.
  intros Hempty. unfold createReadStateRequest.
  destruct (requestIdFromReadStateOptions options) as [requestId|];
    [|reflexivity].
  unfold bind, delegatedRequestIds_has. rewrite Hempty.
  now rewrite bool_decide_eq_false_2 by apply not_elem_of_empty.
Qed.

(** X4. An instance whose condition for the delegated path is false (no
    [options.delegation], or an empty targets list) only ever calls
    [getPrincipal], the signer's [callCanister] and [Certificate.create]:
    in no operation does it read or write a store, ask for a delegation,
    generate a key, or make one of the HTTP agent's requests ([call],
    [query], [readState], [createReadStateRequest]); both stores are as
    before. The HTTP agent counts only through the root key [query] reads
    from it: with another HTTP agent in its place [call], [readState] and
    [createReadStateRequest] do the same, and so does [query] when the
    other agent has the same root key. *)
Theorem signer_routed_never_delegates this op h :
  delegates this = false ->
  reachable this h ->
  (emitting signer_event h (exec this op h)
   /\ idb (exec this op h) = idb h
   /\ custom (exec this op h) = custom h)
  /\ forall agent,
       (forall canisterId options,
          call (with_agent this agent) canisterId options h
          = call this canisterId options h)
       /\ (forall canisterId options,
             readState (with_agent this agent) canisterId options h
             = readState this canisterId options h)
       /\ (forall options,
             createReadStateRequest (with_agent this agent) options h
             = createReadStateRequest this options h)
       /\ ((forall w, agent_rootKey agent w = agent_rootKey (this_agent this) w) ->
           forall canisterId options,
             query (with_agent this agent) canisterId options h
             = query this canisterId options h).
Proof.
  intros Hd Hreach.
  destruct (reachable_one_collection this h Hreach) as [_ Hempty].
  specialize (Hempty Hd). split.
  - destruct op; simpl.
    + now apply signer_step_call.
    + now apply signer_step_query.
    + now apply signer_step_readState.
    + now apply signer_step_createReadStateRequest.
  - intros agent. split; [|split; [|split]].
    + intros canisterId options. now apply call_with_agent.
    + intros canisterId options. now apply readState_with_agent.
    + intros options. now apply createReadStateRequest_with_agent.
    + intros Hroot canisterId options. now apply query_with_agent.
Qed.

Lemma no_callCanister_trans h1 h2 h3 :
  emitting no_callCanister h1 h2 -> emitting no_callCanister h2 h3 ->
  emitting no_callCanister h1 h3.
Proof. apply emitting_trans. Qed.

Lemma no_callCanister_perform {A} e (f : Eff A) :
  no_callCanister e = true -> steps (emitting no_callCanister) (perform e f).
Proof.
  intros He h. unfold perform. destruct (f (world h)) as [r w]. simpl.
  now apply emitting_one with e.
Qed.

Lemma no_callCanister_getDelegationIdentity this principal :
  steps (emitting no_callCanister) (getDelegationIdentity this principal).
Proof.
  intros h. destruct (getDelegationIdentity_step this principal h) as (E & _).
  apply (emitting_weaken (delegation_event (this_storage this))); [|exact E].
  intros []; simpl; auto; discriminate.
Qed.

Ltac quiet_steps :=
  repeat first
    [ apply steps_ret | apply steps_throw | apply steps_lift
    | apply steps_observe | apply steps_readStateResponses_get
    | apply steps_delegatedRequestIds_has
    | apply emitting_refl
    | apply no_callCanister_perform; reflexivity
    | apply no_callCanister_getDelegationIdentity
    | intros ?; apply emitting_same; reflexivity
    | solve [auto]
    | apply steps_bind; [apply no_callCanister_trans | | intros ?]
    | match goal with
      | |- steps _ (match ?x with _ => _ end) => destruct x
      end ].

Lemma no_callCanister_call this canisterId options :
  delegates this = true ->
  steps (emitting no_callCanister) (call this canisterId options).
Proof.
  intros Hd. unfold call.
  apply steps_bind; [apply no_callCanister_trans | quiet_steps | intros sender].
  apply steps_bind; [apply no_callCanister_trans | quiet_steps | intros target].
  destruct (delegationCondition this target) eqn:E.
  - destruct (delegationCondition_delegation _ _ E) as [d Hopt].
    apply steps_bind_returned
      with (Q := fun a => exists delegationIdentity, a = Some delegationIdentity).
    + apply no_callCanister_trans.
    + quiet_steps.
    + intros h a. now apply getDelegationIdentity_returned with (d := d).
    + intros a [delegationIdentity ->]. quiet_steps.
  - change (delegates this = false) in E. congruence.
Qed.

Lemma no_callCanister_query this canisterId options :
  delegates this = true ->
  steps (emitting no_callCanister) (query this canisterId options).
Proof.
  intros Hd. unfold query.
  apply steps_bind; [apply no_callCanister_trans | quiet_steps | intros sender].
  apply steps_bind; [apply no_callCanister_trans | quiet_steps | intros target].
  destruct (delegationCondition this target) eqn:E.
  - destruct (delegationCondition_delegation _ _ E) as [d Hopt].
    apply steps_bind_returned
      with (Q := fun a => exists delegationIdentity, a = Some delegationIdentity).
    + apply no_callCanister_trans.
    + quiet_steps.
    + intros h a. now apply getDelegationIdentity_returned with (d := d).
    + intros a [delegationIdentity ->]. quiet_steps.
  - change (delegates this = false) in E. congruence.
Qed.

(** X5. An instance whose condition for the delegated path is true never
    calls the signer's [callCanister], in any operation and from any heap:
    when the delegation cannot be had, [call] and [query] throw rather than
    fall back on the signer. *)
Theorem delegated_never_calls_signer this op h :
  delegates this = true ->
  emitting no_callCanister h (exec this op h).
Proof.
  intros Hd. destruct op; simpl.
  - now apply no_callCanister_call.
  - now apply no_callCanister_query.
  - assert (Hs : steps (emitting no_callCanister)
                   (readState this canisterId options))
      by (unfold readState; quiet_steps).
    apply Hs.
  - assert (Hs : steps (emitting no_callCanister)
                   (createReadStateRequest this options))
      by (unfold createReadStateRequest; quiet_steps).
    apply Hs.
Qed.

(** ** The delegated path of [call] and [query] *)

Lemma same_collections_refl h : same_collections h h.
Proof. now split. Qed.

Lemma same_collections_trans h1 h2 h3 :
  same_collections h1 h2 -> same_collections h2 h3 -> same_collections h1 h3.
Proof. intros [? ?] [? ?]. split; congruence. Qed.

Lemma same_collections_getDelegationIdentity this principal :
  steps same_collections (getDelegationIdentity this principal).
Proof.
  intros h. destruct (getDelegationIdentity_step this principal h)
    as (_ & Hr & Hm & _).
  now split.
Qed.

Lemma same_collections_perform {A} e (f : Eff A) :
  steps same_collections (perform e f).
Proof.
  intros h. unfold perform. destruct (f (world h)) as [r w]. now split.
Qed.

(** X6. On the delegated path, when the HTTP agent accepts the call, [call]
    returns the agent's answer as it is and adds the base64 text of its
    request identifier to [delegatedRequestIds], leaving
    [readStateResponses] alone; when the agent throws, [call] throws the
    same error and no marker is added. *)
Theorem call_delegated_marks
  this canisterId options h sender w1 target delegationIdentity h2 :
  options_getPrincipal (world h) = (Returned sender, w1) ->
  Principal_from canisterId = Returned target ->
  delegationCondition this target = true ->
  getDelegationIdentity this sender (moved h w1 [GetPrincipal])
  = (Returned (Some delegationIdentity), h2) ->
  (forall submitResponse w3,
     agent_call (this_agent this) target options delegationIdentity (world h2)
     = (Returned submitResponse, w3) ->
     call this canisterId options h
     = (Returned submitResponse,
        mkHeap (readStateResponses h)
          ({[base64 (requestId submitResponse)]} ∪ delegatedRequestIds h)
          (idb h2) (custom h2) w3
          (trace h2 ++ [AgentCall target options delegationIdentity])))
  /\ (forall e w3,
        agent_call (this_agent this) target options delegationIdentity (world h2)
        = (Thrown e, w3) ->
        call this canisterId options h
        = (Thrown e,
           mkHeap (readStateResponses h) (delegatedRequestIds h)
             (idb h2) (custom h2) w3
             (trace h2 ++ [AgentCall target options delegationIdentity]))).
Proof.
  intros Hp Ht Hc Hg.
  pose proof (same_collections_getDelegationIdentity this sender
                (moved h w1 [GetPrincipal])) as [Hr Hm].
  rewrite Hg in Hr, Hm. simpl in Hr, Hm.
  split.
  - intros submitResponse w3 Ha.
    unfold call, bind, perform, lift. rewrite Hp, Ht, Hc, Hg, Ha.
    unfold delegatedRequestIds_add, ret, moved. simpl.
    now rewrite Hr, Hm.
  - intros e w3 Ha.
    unfold call, bind, perform, lift. rewrite Hp, Ht, Hc, Hg, Ha.
    unfold moved. simpl. now rewrite Hr, Hm.
Qed.

(** X7. On the delegated path [query] is the query of the HTTP agent made
    with the delegation identity: it returns or throws what the agent does,
    and neither collection changes. *)
Theorem query_delegated_passes
  this canisterId options h sender w1 target delegationIdentity h2 answer w3 :
  options_getPrincipal (world h) = (Returned sender, w1) ->
  Principal_from canisterId = Returned target ->
  delegationCondition this target = true ->
  getDelegationIdentity this sender (moved h w1 [GetPrincipal])
  = (Returned (Some delegationIdentity), h2) ->
  agent_query (this_agent this) canisterId options delegationIdentity (world h2)
  = (answer, w3) ->
  query this canisterId options h
  = (answer,
     mkHeap (readStateResponses h) (delegatedRequestIds h) (idb h2) (custom h2)
       w3 (trace h2 ++ [AgentQuery canisterId options delegationIdentity])).
Proof.
  intros Hp Ht Hc Hg Ha.
  pose proof (same_collections_getDelegationIdentity this sender
                (moved h w1 [GetPrincipal])) as [Hr Hm].
  rewrite Hg in Hr, Hm. simpl in Hr, Hm.
  unfold query, bind, perform, lift. rewrite Hp, Ht, Hc, Hg, Ha.
  unfold moved. now rewrite Hr, Hm.
Qed.

(** ** Reading back what [call] left *)

Lemma readState_cached this canisterId options h requestId readStateResponse :
  requestIdFromReadStateOptions options = Some requestId ->
  base64 requestId ∉ delegatedRequestIds h ->
  readStateResponses h !! base64 requestId = Some readStateResponse ->
  readState this canisterId options h
  = (Returned readStateResponse,
     mkHeap (delete (base64 requestId) (readStateResponses h))
       (delegatedRequestIds h) (idb h) (custom h) (world h) (trace h)).
Proof.
  intros Hid Hmark Hsome.
  unfold readState, bind, delegatedRequestIds_has, readStateResponses_get.
  rewrite Hid, (bool_decide_eq_false_2 _ Hmark), Hsome. reflexivity.
Qed.

(** X8. After a call through the signer, a [readState] for the returned
    request identifier gives back the signer's certificate without calling
    any collaborator, and removes it: a second [readState] for the
    identifier throws the response-not-found error. *)
Theorem call_then_readState
  this canisterId options h sender w1 target signed w2 requestBody
  canisterId' options' :
  reachable this h ->
  options_getPrincipal (world h) = (Returned sender, w1) ->
  Principal_from canisterId = Returned target ->
  delegationCondition this target = false ->
  signer_callCanister target sender (methodName options) (arg options) w1
  = (Returned signed, w2) ->
  decode (contentMap signed) = Returned requestBody ->
  contentMismatch target sender options requestBody = false ->
  requestIdFromReadStateOptions options' = Some (requestIdOf requestBody) ->
  let h1 := snd (call this canisterId options h) in
  let h2 := snd (readState this canisterId' options' h1) in
  readState this canisterId' options' h1
  = (Returned {| certificate := signer_certificate signed |}, h2)
  /\ world h2 = world h1
  /\ trace h2 = trace h1
  /\ readStateResponses h2
     = delete (base64 (requestIdOf requestBody)) (readStateResponses h)
  /\ readState this canisterId' options' h2
     = (Thrown (SignerAgentError
          "Invalid read state request, response could not be found"), h2).
Proof.
  intros Hreach Hp Ht Hc Hs Hd Hm Hid h1 h2.
  destruct (reachable_one_collection this h Hreach) as [_ Hempty].
  specialize (Hempty Hc).
  assert (Hcall : call this canisterId options h
                  = callThroughSigner sender target options
                      (moved h w1 [GetPrincipal]))
    by now apply call_not_delegated.
  rewrite (callThroughSigner_match sender target options
             (moved h w1 [GetPrincipal]) signed w2 requestBody Hs Hd Hm)
    in Hcall.
  assert (Hread : readState this canisterId' options' h1
                  = (Returned {| certificate := signer_certificate signed |},
                     mkHeap
                       (delete (base64 (requestIdOf requestBody))
                          (readStateResponses h1))
                       (delegatedRequestIds h1) (idb h1) (custom h1)
                       (world h1) (trace h1))).
  { apply readState_cached with (requestId := requestIdOf requestBody);
      [exact Hid | |].
    - unfold h1. rewrite Hcall. simpl. rewrite Hempty. apply not_elem_of_empty.
    - unfold h1. rewrite Hcall. simpl. apply lookup_insert_eq. }
  assert (Hh2 : h2 = mkHeap
                       (delete (base64 (requestIdOf requestBody))
                          (readStateResponses h1))
                       (delegatedRequestIds h1) (idb h1) (custom h1)
                       (world h1) (trace h1))
    by (unfold h2; now rewrite Hread).
  split; [now rewrite Hread, Hh2|].
  rewrite Hh2. simpl. split; [reflexivity|]. split; [reflexivity|]. split.
  - unfold h1. rewrite Hcall. simpl. apply delete_insert_eq.
  - apply readState_unknown with (requestId := requestIdOf requestBody);
      [exact Hid | |]; simpl.
    + unfold h1. rewrite Hcall. simpl. rewrite Hempty. apply not_elem_of_empty.
    + apply lookup_delete_eq.
Qed.

(** ** [createReadStateRequest] *)

Lemma same_collections_createReadStateRequest this options :
  steps same_collections (createReadStateRequest this options).
Proof.
  unfold createReadStateRequest.
  repeat first
    [ apply steps_ret | apply steps_throw
    | apply steps_delegatedRequestIds_has
    | apply same_collections_refl
    | apply same_collections_perform
    | apply same_collections_getDelegationIdentity
    | apply steps_bind; [apply same_collections_trans | | intros ?]
    | match goal with
      | |- steps _ (match ?x with _ => _ end) => destruct x
      end ].
Qed.

(** X9. [createReadStateRequest] never changes the two collections; in
    particular it keeps the marker that [readState] removes. For an
    identifier without a marker it returns undefined and calls nothing,
    even when a certified response is waiting; for one with a marker it
    hands the request to the HTTP agent with the delegation identity
    obtained for the caller, and returns the agent's answer. *)
Theorem createReadStateRequest_behaviour this options h :
  (readStateResponses (snd (createReadStateRequest this options h))
   = readStateResponses h
   /\ delegatedRequestIds (snd (createReadStateRequest this options h))
      = delegatedRequestIds h)
  /\ forall requestId,
       requestIdFromReadStateOptions options = Some requestId ->
       (base64 requestId ∉ delegatedRequestIds h ->
        createReadStateRequest this options h = (Returned None, h))
       /\ (base64 requestId ∈ delegatedRequestIds h ->
           forall sender w1 delegationIdentity h2 request w3,
             options_getPrincipal (world h) = (Returned sender, w1) ->
             getDelegationIdentity this sender (moved h w1 [GetPrincipal])
             = (Returned delegationIdentity, h2) ->
             agent_createReadStateRequest (this_agent this) options
               delegationIdentity (world h2)
             = (Returned request, w3) ->
             createReadStateRequest this options h
             = (Returned (Some request),
                moved h2 w3
                  [AgentCreateReadStateRequest options delegationIdentity])).
Proof.
  split; [apply same_collections_createReadStateRequest|].
  intros requestId Hid. split.
  - intros Hmark.
    unfold createReadStateRequest, bind, delegatedRequestIds_has.
    now rewrite Hid, (bool_decide_eq_false_2 _ Hmark).
  - intros Hmark sender w1 delegationIdentity h2 request w3 Hp Hg Ha.
    unfold createReadStateRequest, bind, delegatedRequestIds_has, perform.
    rewrite Hid, (bool_decide_eq_true_2 _ Hmark), Hp, Hg, Ha. reflexivity.
Qed.

(** ** What [query] leaves behind *)

Lemma nothing_stored_refl h : nothing_stored h h.
Proof. now split. Qed.

Lemma nothing_stored_trans h1 h2 h3 :
  nothing_stored h1 h2 -> nothing_stored h2 h3 -> nothing_stored h1 h3.
Proof.
  intros [S1 M1] [S2 M2]. split; [|congruence].
  intros key Hkey. apply S1, S2, Hkey.
Qed.

Lemma same_collections_nothing_stored h h' :
  same_collections h h' -> nothing_stored h h'.
Proof. intros [Hr Hm]. split; [now rewrite Hr | exact Hm]. Qed.

Lemma nothing_stored_perform {A} e (f : Eff A) :
  steps nothing_stored (perform e f).
Proof.
  intros h. apply same_collections_nothing_stored, same_collections_perform.
Qed.

Lemma nothing_stored_getDelegationIdentity this principal :
  steps nothing_stored (getDelegationIdentity this principal).
Proof.
  intros h.
  apply same_collections_nothing_stored, same_collections_getDelegationIdentity.
Qed.

(** What a call through the signer does to the collections: a response is
    put under the returned identifier, or nothing changes. *)
Lemma callThroughSigner_collections sender target options h :
  match callThroughSigner sender target options h with
  | (Returned submitResponse, h') =>
      (exists readStateResponse,
         readStateResponses h'
         = <[base64 (requestId submitResponse) := readStateResponse]>
             (readStateResponses h))
      /\ delegatedRequestIds h' = delegatedRequestIds h
  | (Thrown _, h') => same_collections h h'
  end.
Proof.
  unfold callThroughSigner, bind, perform, lift.
  destruct (signer_callCanister target sender (methodName options)
              (arg options) (world h)) as [[signed|e] w];
    [|now split].
  destruct (decode (contentMap signed)) as [requestBody|e]; [|now split].
  destruct (contentMismatch target sender options requestBody); [now split|].
  simpl. eauto.
Qed.

Lemma call_collections this canisterId options h :
  delegates this = false ->
  match call this canisterId options h with
  | (Returned submitResponse, h') =>
      (exists readStateResponse,
         readStateResponses h'
         = <[base64 (requestId submitResponse) := readStateResponse]>
             (readStateResponses h))
      /\ delegatedRequestIds h' = delegatedRequestIds h
  | (Thrown _, h') => same_collections h h'
  end.
Proof.
  intros Hd. unfold call, bind at 1 2, perform, lift.
  destruct (options_getPrincipal (world h)) as [[sender|e] w]; [|now split].
  destruct (Principal_from canisterId) as [target|e]; [|now split].
  change (delegationCondition this target) with (delegates this). rewrite Hd.
  apply (callThroughSigner_collections sender target options
           (moved h w [GetPrincipal])).
Qed.

Lemma nothing_stored_queryThroughSigner this canisterId target options :
  delegates this = false ->
  steps nothing_stored (queryThroughSigner this canisterId target options).
Proof.
  intros Hd h. unfold queryThroughSigner, bind at 1.
  pose proof (call_collections this canisterId options h Hd) as Hcall.
  destruct (call this canisterId options h) as [[submitResponse|e] h1];
    [|now apply same_collections_nothing_stored].
  destruct Hcall as [[readStateResponse Hr] Hm].
  unfold bind at 1, readStateResponses_get. rewrite Hr, lookup_insert_eq.
  unfold bind at 1, readStateResponses_delete. cbn [fst snd].
  match goal with
  | |- nothing_stored _ (snd (?m ?h0)) =>
      assert (Hrest : steps nothing_stored m);
      [|apply nothing_stored_trans with h0; [|apply Hrest]]
  end.
  - repeat first
      [ apply steps_ret | apply steps_throw | apply steps_observe
      | apply nothing_stored_refl | apply nothing_stored_perform
      | apply steps_bind; [apply nothing_stored_trans | | intros ?]
      | match goal with
        | |- steps _ (if ?x then _ else _) => destruct x
        end ].
  - split; simpl; [|exact Hm].
    rewrite Hr, delete_insert_eq, dom_delete. apply subseteq_difference_l.
    reflexivity.
Qed.

(** X10. [query] never adds to [readStateResponses] or to
    [delegatedRequestIds], whether it returns or throws: the response its
    inner call stores is taken out again before the certificate is checked. *)
Theorem query_stores_nothing this canisterId options h :
  dom (readStateResponses (snd (query this canisterId options h)))
    ⊆ dom (readStateResponses h)
  /\ delegatedRequestIds (snd (query this canisterId options h))
     = delegatedRequestIds h.
Proof.
  revert h. change (steps nothing_stored (query this canisterId options)).
  unfold query.
  apply steps_bind; [apply nothing_stored_trans | apply nothing_stored_perform |].
  intros sender.
  apply steps_bind; [apply nothing_stored_trans | apply steps_lift, nothing_stored_refl |].
  intros target.
  destruct (delegationCondition this target) eqn:E.
  - destruct (delegationCondition_delegation _ _ E) as [d Hopt].
    apply steps_bind_returned
      with (Q := fun a => exists delegationIdentity, a = Some delegationIdentity).
    + apply nothing_stored_trans.
    + apply nothing_stored_getDelegationIdentity.
    + intros h a. now apply getDelegationIdentity_returned with (d := d).
    + intros a [delegationIdentity ->]. apply nothing_stored_perform.
  - now apply nothing_stored_queryThroughSigner.
Qed.

(** ** The base identity is made once *)

Lemma store_of_moved s h w events : store_of s (moved h w events) = store_of s h.
Proof. destruct s; reflexivity. Qed.

Lemma storage_set_returns s key value h :
  storage_set s key value h = (Returned tt, snd (storage_set s key value h)).
Proof. reflexivity. Qed.

(** X11. Without a fixed identity in the options, once
    [getDelegationBaseIdentity] has returned an identity for a principal, a
    second call for that principal returns the same identity by reading the
    store alone: no key is generated and nothing is written, provided the
    stored form of the identity reads back as the identity. *)
Theorem base_identity_reused this sender h i h1 :
  opt_delegation (this_options this) ≫= identity = None ->
  getDelegationBaseIdentity this sender h = (Returned i, h1) ->
  reads_back i ->
  getDelegationBaseIdentity this sender h1
  = (Returned i,
     moved h1 (world h1)
       [StorageGet (this_storage this)
          ("delegation-identity-" +:+ Principal_toText sender)]).
Proof.
  intros Hnone Hfirst Hback.
  set (s := this_storage this) in *.
  set (key := "delegation-identity-" +:+ Principal_toText sender) in *.
  assert (Hhit : forall h0 v,
    store_of s h0 !! key = Some v ->
    match v with SVString json => json <> "" | SVKeyPair _ => True end ->
    getDelegationBaseIdentity this sender h0
    = (match v with
       | SVString json =>
           match Ed25519_fromJSON json with
           | Returned k => Returned (Generated (Ed25519 k))
           | Thrown e => Thrown e
           end
       | SVKeyPair keyPair =>
           match ECDSA_fromKeyPair keyPair with
           | Returned k => Returned (Generated (ECDSA k))
           | Thrown e => Thrown e
           end
       end, moved h0 (world h0) [StorageGet s key])).
  { intros h0 v Hv Hne. unfold getDelegationBaseIdentity. rewrite Hnone.
    unfold bind, storage_get. fold s key. rewrite Hv.
    destruct v as [json|keyPair].
    - apply String.eqb_neq in Hne. rewrite Hne. unfold lift.
      now destruct (Ed25519_fromJSON json).
    - unfold lift. now destruct (ECDSA_fromKeyPair keyPair). }
  assert (Hmiss : forall h0,
    fst (newDelegationBaseIdentity this sender h0) = Returned i ->
    let h' := snd (newDelegationBaseIdentity this sender h0) in
    exists v,
      store_of s h' !! key = Some v
      /\ match v with
         | SVString json =>
             json <> "" /\ exists k, i = Generated (Ed25519 k)
                                     /\ Ed25519_fromJSON json = Returned k
         | SVKeyPair keyPair =>
             exists k, i = Generated (ECDSA k)
                       /\ ECDSA_fromKeyPair keyPair = Returned k
         end).
  { intros h0. unfold newDelegationBaseIdentity, createDelegationBaseIdentity,
      setDelegationBaseIdentity.
    fold s key.
    destruct (opt_delegation (this_options this) ≫= keyType) as [[|]|].
    - unfold bind, perform.
      destruct (ECDSA_generate (world h0)) as [[k|e] w]; [|discriminate].
      unfold ret. cbv beta iota zeta. rewrite storage_set_returns.
      cbn [fst snd].
      intros [= <-]. simpl in Hback.
      exists (SVKeyPair (ECDSA_getKeyPair k)).
      rewrite store_of_storage_set, lookup_insert_eq. eauto.
    - unfold bind, perform.
      destruct (getRandomValues (getCrypto this) 32 (world h0)) as [[seed|e] w];
        [|discriminate].
      unfold ret. cbv beta iota zeta. rewrite storage_set_returns.
      cbn [fst snd].
      intros [= <-]. simpl in Hback.
      destruct Hback as [Hjson Hne].
      exists (SVString (Ed25519_stringify (Ed25519_generate seed))).
      rewrite store_of_storage_set, lookup_insert_eq. eauto.
    - unfold bind, perform.
      destruct (ECDSA_generate (world h0)) as [[k|e] w]; [|discriminate].
      unfold ret. cbv beta iota zeta. rewrite storage_set_returns.
      cbn [fst snd].
      intros [= <-]. simpl in Hback.
      exists (SVKeyPair (ECDSA_getKeyPair k)).
      rewrite store_of_storage_set, lookup_insert_eq. eauto. }
  assert (Hagain : forall v,
    store_of s h1 !! key = Some v ->
    match v with
    | SVString json =>
        json <> "" /\ exists k, i = Generated (Ed25519 k)
                                /\ Ed25519_fromJSON json = Returned k
    | SVKeyPair keyPair =>
        exists k, i = Generated (ECDSA k) /\ ECDSA_fromKeyPair keyPair = Returned k
    end ->
    getDelegationBaseIdentity this sender h1
    = (Returned i, moved h1 (world h1) [StorageGet s key])).
  { intros v Hv Hform. rewrite (Hhit h1 v Hv).
    - destruct v as [json|keyPair].
      + destruct Hform as (_ & k & -> & ->). reflexivity.
      + destruct Hform as (k & -> & ->). reflexivity.
    - destruct v; [apply Hform | exact I]. }
  unfold getDelegationBaseIdentity in Hfirst. rewrite Hnone in Hfirst.
  unfold bind at 1, storage_get in Hfirst. fold s key in Hfirst.
  destruct (store_of s h !! key) as [[json|keyPair]|] eqn:Hv.
  - destruct (String.eqb_spec json "") as [->|Hne].
    + destruct (Hmiss (moved h (world h) [StorageGet s key])) as (v & Hv' & Hform).
      { now rewrite Hfirst. }
      rewrite Hfirst in Hv'. simpl in Hv'. now apply (Hagain v).
    + unfold bind, lift, ret in Hfirst.
      destruct (Ed25519_fromJSON json) as [k|e] eqn:Hjson; [|discriminate].
      injection Hfirst as <- <-.
      apply (Hagain (SVString json)); [now rewrite store_of_moved|].
      split; [exact Hne | eauto].
  - unfold bind, lift, ret in Hfirst.
    destruct (ECDSA_fromKeyPair keyPair) as [k|e] eqn:Hpair; [|discriminate].
    injection Hfirst as <- <-.
    apply (Hagain (SVKeyPair keyPair)); [now rewrite store_of_moved | eauto].
  - destruct (Hmiss (moved h (world h) [StorageGet s key])) as (v & Hv' & Hform).
    { now rewrite Hfirst. }
    rewrite Hfirst in Hv'. simpl in Hv'. now apply (Hagain v).
Qed.

(** ** Asking for the chain again *)

Lemma getDelegationChain_stale this principal pk h :
  let s := this_storage this in
  let scope := delegation_targets_opt this in
  let key :=
    "delegation-chain-" +:+ Principal_toText principal +:+ "-" +:+ base64 pk in
  store_of s h !! key = None
  \/ store_of s h !! key = Some (SVString "")
  \/ (exists json cached,
        store_of s h !! key = Some (SVString json)
        /\ DelegationChain_fromJSON json = Returned cached
        /\ isDelegationValid cached scope (world h) = false) ->
  getDelegationChain this principal pk h
  = requestDelegationChain this principal pk
      (moved h (world h) [StorageGet s key]).
Proof.
  intros s scope key Hstale.
  unfold getDelegationChain, bind, storage_get. fold s key.
  destruct Hstale as [-> | [-> | (json & cached & -> & Hjson & Hinvalid)]];
    try reflexivity.
  destruct (String.eqb json ""); [reflexivity|].
  unfold lift, observe. rewrite Hjson. cbn [world moved].
  fold scope. rewrite Hinvalid. reflexivity.
Qed.

Lemma getDelegationChain_hit this principal pk h json cached :
  let s := this_storage this in
  let scope := delegation_targets_opt this in
  let key :=
    "delegation-chain-" +:+ Principal_toText principal +:+ "-" +:+ base64 pk in
  store_of s h !! key = Some (SVString json) ->
  json <> "" ->
  DelegationChain_fromJSON json = Returned cached ->
  isDelegationValid cached scope (world h) = true ->
  getDelegationChain this principal pk h
  = (Returned cached, moved h (world h) [StorageGet s key]).
Proof.
  intros s scope key Hget Hne Hjson Hvalid.
  unfold getDelegationChain, bind, storage_get. fold s key. rewrite Hget.
  apply String.eqb_neq in Hne. rewrite Hne.
  unfold lift, observe. rewrite Hjson. cbn [world moved].
  fold scope. rewrite Hvalid. reflexivity.
Qed.

(** X12. When the chain the signer returns is stored under the very key it
    is looked up by, reads back from its stored form and is valid, the next
    [getDelegationChain] for the same principal and public key returns it
    from the store and does not call the signer. *)
Theorem chain_reused_after_acquisition this principal pk h newChain w terminal :
  let s := this_storage this in
  let scope := delegation_targets_opt this in
  let key :=
    "delegation-chain-" +:+ Principal_toText principal +:+ "-" +:+ base64 pk in
  store_of s h !! key = None
  \/ store_of s h !! key = Some (SVString "")
  \/ (exists json cached,
        store_of s h !! key = Some (SVString json)
        /\ DelegationChain_fromJSON json = Returned cached
        /\ isDelegationValid cached scope (world h) = false) ->
  signer_getDelegation principal pk scope (world h) = (Returned newChain, w) ->
  last (delegations newChain) = Some terminal ->
  "delegation-chain-"
    +:+ Principal_toText (Principal_selfAuthenticating (publicKey newChain))
    +:+ "-" +:+ base64 (pubkey (delegation terminal))
  = key ->
  DelegationChain_stringify newChain <> "" ->
  DelegationChain_fromJSON (DelegationChain_stringify newChain)
  = Returned newChain ->
  isDelegationValid newChain scope w = true ->
  let h1 := snd (getDelegationChain this principal pk h) in
  getDelegationChain this principal pk h1
  = (Returned newChain, moved h1 w [StorageGet s key]).
Proof.
  intros s scope key Hstale Hsigner Hlast Hkey Hne Hjson Hvalid h1.
  assert (Hh1 : h1 = snd (storage_set s key
                            (SVString (DelegationChain_stringify newChain))
                            (moved (moved h (world h) [StorageGet s key]) w
                               [GetDelegation principal pk scope]))).
  { unfold h1. rewrite (getDelegationChain_stale this principal pk h Hstale).
    fold s key.
    rewrite (requestDelegationChain_run this principal pk
               (moved h (world h) [StorageGet s key]) newChain w terminal
               Hsigner Hlast).
    fold s scope. rewrite Hkey. reflexivity. }
  assert (Hw : world h1 = w) by (rewrite Hh1; destruct s; reflexivity).
  rewrite <- Hw.
  apply getDelegationChain_hit with (json := DelegationChain_stringify newChain).
  - fold s key. rewrite Hh1, store_of_storage_set. apply lookup_insert_eq.
  - exact Hne.
  - exact Hjson.
  - fold scope. now rewrite Hw.
Qed.

(** X13. When nothing is stored under the lookup key and the chain the
    signer returns is stored under another key, the lookup key still has no
    entry afterwards, and the next [getDelegationChain] for the same
    principal and public key asks the signer again. *)
Theorem chain_requested_again_when_keys_differ
  this principal pk h newChain w terminal :
  let s := this_storage this in
  let scope := delegation_targets_opt this in
  let key :=
    "delegation-chain-" +:+ Principal_toText principal +:+ "-" +:+ base64 pk in
  store_of s h !! key = None ->
  signer_getDelegation principal pk scope (world h) = (Returned newChain, w) ->
  last (delegations newChain) = Some terminal ->
  "delegation-chain-"
    +:+ Principal_toText (Principal_selfAuthenticating (publicKey newChain))
    +:+ "-" +:+ base64 (pubkey (delegation terminal))
  <> key ->
  let h1 := snd (getDelegationChain this principal pk h) in
  store_of s h1 !! key = None
  /\ forall again w' terminal',
       signer_getDelegation principal pk scope w = (Returned again, w') ->
       last (delegations again) = Some terminal' ->
       exists h2,
         getDelegationChain this principal pk h1 = (Returned again, h2)
         /\ trace h2
            = (trace h1
                 ++ [StorageGet s key; GetDelegation principal pk scope;
                     StorageSet s
                       ("delegation-chain-"
                          +:+ Principal_toText
                                (Principal_selfAuthenticating (publicKey again))
                          +:+ "-" +:+ base64 (pubkey (delegation terminal')))
                       (SVString (DelegationChain_stringify again))])%list.
Proof.
  intros s scope key Hnone Hsigner Hlast Hkey h1.
  assert (Hh1 : h1 = snd (storage_set s
                            ("delegation-chain-"
                               +:+ Principal_toText
                                     (Principal_selfAuthenticating
                                        (publicKey newChain))
                               +:+ "-" +:+ base64 (pubkey (delegation terminal)))
                            (SVString (DelegationChain_stringify newChain))
                            (moved (moved h (world h) [StorageGet s key]) w
                               [GetDelegation principal pk scope]))).
  { unfold h1.
    rewrite (getDelegationChain_stale this principal pk h (or_introl Hnone)).
    fold s key.
    now rewrite (requestDelegationChain_run this principal pk
                   (moved h (world h) [StorageGet s key]) newChain w terminal
                   Hsigner Hlast). }
  assert (Hw : world h1 = w) by (rewrite Hh1; destruct s; reflexivity).
  assert (Hstill : store_of s h1 !! key = None).
  { rewrite Hh1, store_of_storage_set, lookup_insert_ne by exact Hkey.
    now rewrite !store_of_moved. }
  split; [exact Hstill|].
  intros again w' terminal' Hsigner' Hlast'.
  rewrite (getDelegationChain_stale this principal pk h1 (or_introl Hstill)).
  fold s key.
  rewrite <- Hw in Hsigner'.
  rewrite (requestDelegationChain_run this principal pk
             (moved h1 (world h1) [StorageGet s key]) again w' terminal'
             Hsigner' Hlast').
  eexists. split; [reflexivity|].
  rewrite trace_storage_set. cbn [moved trace]. fold s scope.
  now rewrite <- !app_assoc.
Qed.

(** X14. How [getDelegationChain] fails: a key pair stored under the chain
    key throws "Invalid delegation chain in storage", and a stored text that
    does not parse throws the parser's error, both without a call to the
    signer; a chain with no delegation, returned by the signer, throws
    after the signer was asked, and nothing is stored. *)
Theorem chain_acquisition_failures this principal pk h :
  let s := this_storage this in
  let scope := delegation_targets_opt this in
  let key :=
    "delegation-chain-" +:+ Principal_toText principal +:+ "-" +:+ base64 pk in
  (forall keyPair,
     store_of s h !! key = Some (SVKeyPair keyPair) ->
     getDelegationChain this principal pk h
     = (Thrown (SignerAgentError "Invalid delegation chain in storage"),
        moved h (world h) [StorageGet s key]))
  /\ (forall json e,
        store_of s h !! key = Some (SVString json) ->
        json <> "" ->
        DelegationChain_fromJSON json = Thrown e ->
        getDelegationChain this principal pk h
        = (Thrown e, moved h (world h) [StorageGet s key]))
  /\ (forall newChain w,
        store_of s h !! key = None
        \/ store_of s h !! key = Some (SVString "")
        \/ (exists json cached,
              store_of s h !! key = Some (SVString json)
              /\ DelegationChain_fromJSON json = Returned cached
              /\ isDelegationValid cached scope (world h) = false) ->
        signer_getDelegation principal pk scope (world h)
        = (Returned newChain, w) ->
        delegations newChain = [] ->
        getDelegationChain this principal pk h
        = (Thrown (TypeError "Cannot read properties of undefined"),
           moved h w [StorageGet s key; GetDelegation principal pk scope])).
Proof.
  intros s scope key. split; [|split].
  - intros keyPair Hget.
    unfold getDelegationChain, bind, storage_get. fold s key.
    now rewrite Hget.
  - intros json e Hget Hne Hjson.
    unfold getDelegationChain, bind, storage_get. fold s key. rewrite Hget.
    apply String.eqb_neq in Hne. rewrite Hne. unfold lift. now rewrite Hjson.
  - intros newChain w Hstale Hsigner Hempty.
    rewrite (getDelegationChain_stale this principal pk h Hstale).
    unfold requestDelegationChain, bind, perform, setDelegationChain.
    cbn [world moved]. fold s scope key. rewrite Hsigner, Hempty.
    unfold throw, moved. cbn. now rewrite <- app_assoc.
Qed.

End Further.

(** ** The further properties at work *)

Lemma operations_keep_to_own_storage_witness :
  custom (exec with_storage (OpCall (IsPrincipal canister) greet) shared)
  = custom shared
  /\ idb (exec with_storage (OpCall (IsPrincipal canister) greet) shared)
       !! "theme"
     = Some (SVString "dark").
Proof.
  destruct (operations_keep_to_own_storage with_storage
              (OpCall (IsPrincipal canister) greet) shared) as (_ & Hother & Hkey).
  split.
  - apply (Hother OptionsStorage). discriminate.
  - apply (Hkey "theme"). reflexivity.
Defined.

Lemma signer_routed_never_delegates_witness :
  emitting signer_event start
    (exec signer_only (OpQuery (IsPrincipal canister) greet) start)
  /\ idb (exec signer_only (OpQuery (IsPrincipal canister) greet) start) = ∅
  /\ custom (exec signer_only (OpQuery (IsPrincipal canister) greet) start) = ∅.
Proof.
  destruct (signer_routed_never_delegates signer_only
              (OpQuery (IsPrincipal canister) greet) start)
    as [Hcalls _]; [reflexivity | apply reachable_fresh |].
  exact Hcalls.
Defined.

Lemma options_storage_untouched_witness :
  store_of OptionsStorage
    (exec with_storage (OpCall (IsPrincipal canister) greet) shared)
  = store_of OptionsStorage shared.
Proof.
  apply (proj2 (options_storage_untouched
                  (options_with (Some OptionsStorage)
                     (Some {| identity := None; targets := None;
                              keyType := None |}))
                  OptionsStorage (OpCall (IsPrincipal canister) greet) shared
                  eq_refl ltac:(discriminate))).
Defined.

Lemma delegated_never_calls_signer_witness :
  emitting no_callCanister start
    (exec restricted (OpCall (IsPrincipal other_canister) greet) start).
Proof.
  apply (delegated_never_calls_signer restricted
           (OpCall (IsPrincipal other_canister) greet) start).
  vm_compute. reflexivity.
Defined.

Lemma call_delegated_marks_witness :
  fst (call restricted (IsPrincipal canister) greet start)
  = Returned {| requestId := list_byte_of_string "rid-1";
                response := http "accepted" |}
  /\ "rid-1" ∈ delegatedRequestIds
                 (snd (call restricted (IsPrincipal canister) greet start)).
Proof.
  destruct (call_delegated_marks restricted (IsPrincipal canister) greet start
              alice script canister session_identity
              (snd (getDelegationIdentity restricted alice
                      (moved start script [GetPrincipal]))))
    as [Hok _]; try reflexivity.
  rewrite (Hok {| requestId := list_byte_of_string "rid-1";
                  response := http "accepted" |} script eq_refl).
  split; [reflexivity|].
  cbn [snd delegatedRequestIds].
  apply elem_of_union_l, elem_of_singleton. reflexivity.
Defined.

Lemma query_delegated_passes_witness :
  fst (query restricted (IsPrincipal canister) greet start)
  = Returned (QueryReplied (Some []) (http "ok")).
Proof.
  rewrite (query_delegated_passes restricted (IsPrincipal canister) greet start
             alice script canister session_identity
             (snd (getDelegationIdentity restricted alice
                     (moved start script [GetPrincipal])))
             (Returned (QueryReplied (Some []) (http "ok"))) script)
    by reflexivity.
  reflexivity.
Defined.

Lemma call_then_readState_witness :
  fst (readState signer_only (IsPrincipal canister)
         (status_of (list_byte_of_string "greet"))
         (snd (call signer_only (IsPrincipal canister) greet start)))
  = Returned {| certificate := list_byte_of_string "cert" |}.
Proof.
  destruct (call_then_readState signer_only (IsPrincipal canister) greet start
              alice script canister signed_greet script (decoded "greet")
              (IsPrincipal canister) (status_of (list_byte_of_string "greet")))
    as (Hread & _); [apply reachable_fresh | reflexivity.. |].
  now rewrite Hread.
Defined.

Lemma createReadStateRequest_behaviour_witness :
  createReadStateRequest signer_only (status_of (list_byte_of_string "greet"))
    (snd (call signer_only (IsPrincipal canister) greet start))
  = (Returned None, snd (call signer_only (IsPrincipal canister) greet start)).
Proof.
  destruct (createReadStateRequest_behaviour signer_only
              (status_of (list_byte_of_string "greet"))
              (snd (call signer_only (IsPrincipal canister) greet start)))
    as (_ & Hid).
  destruct (Hid (list_byte_of_string "greet")) as (Hunmarked & _);
    [reflexivity|].
  apply Hunmarked. intros Hin.
  apply (bool_decide_eq_true_2 _) in Hin. vm_compute in Hin. discriminate.
Defined.

Lemma base_identity_reused_witness :
  fst (getDelegationBaseIdentity restricted alice
         (snd (getDelegationBaseIdentity restricted alice start)))
  = Returned session_key.
Proof.
  rewrite (base_identity_reused restricted alice start session_key
             (snd (getDelegationBaseIdentity restricted alice start)))
    by reflexivity.
  reflexivity.
Defined.

Lemma chain_reused_after_acquisition_witness :
  fst (getDelegationChain restricted wallet (list_byte_of_string "wallet")
         (snd (getDelegationChain restricted wallet
                 (list_byte_of_string "wallet") (fresh_heap ∅ ∅ early))))
  = Returned (issued early)
  /\ existsb is_GetDelegation
       (drop 3
          (trace (snd (getDelegationChain restricted wallet
                         (list_byte_of_string "wallet")
                         (snd (getDelegationChain restricted wallet
                                 (list_byte_of_string "wallet")
                                 (fresh_heap ∅ ∅ early)))))))
     = false.
Proof.
  rewrite (chain_reused_after_acquisition restricted wallet
             (list_byte_of_string "wallet") (fresh_heap ∅ ∅ early)
             (issued early) early
             {| delegation :=
                  {| pubkey := list_byte_of_string "wallet"; expiration := 6;
                     delegation_targets := None |};
                signature := [] |});
    first [ left; reflexivity | reflexivity | discriminate | idtac ].
  split; vm_compute; reflexivity.
Defined.

Lemma chain_requested_again_when_keys_differ_witness :
  idb (snd (getDelegationChain restricted alice (list_byte_of_string "P256") start))
    !! "delegation-chain-alice-P256"
  = None.
Proof.
  destruct (chain_requested_again_when_keys_differ restricted alice
              (list_byte_of_string "P256") start (issued script) script
              {| delegation :=
                   {| pubkey := list_byte_of_string "wallet"; expiration := 100;
                      delegation_targets := None |};
                 signature := [] |})
    as (Hstill & _);
    [reflexivity | reflexivity | reflexivity | vm_compute; discriminate |].
  exact Hstill.
Defined.

Lemma chain_acquisition_failures_witness :
  fst (getDelegationChain restricted alice (list_byte_of_string "P256") broken)
  = Thrown (SignerAgentError "Invalid delegation chain in storage").
Proof.
  destruct (chain_acquisition_failures restricted alice
              (list_byte_of_string "P256") broken) as (Hpair & _).
  now rewrite (Hpair (list_byte_of_string "P256") eq_refl).
Defined.

(** * Properties of PostMessageChannel *)

Module PostMessageChannelProperties.
Import PostMessageChannel.

Section Channel.
Context {JsonRequest JsonValue Listener : Type}.
Variable isJsonRpcResponse : JsonValue -> bool.

Abbreviation Browser := (@Browser JsonRequest Listener).
Abbreviation MessageEvent := (@MessageEvent JsonValue).

Lemma messageListener_Some options (listener : Listener) (event : MessageEvent) call :
  messageListener isJsonRpcResponse options listener event = Some call <->
  source event = Some (window options)
  /\ event_origin event = origin options
  /\ isJsonRpcResponse (data event) = true
  /\ call = (listener, data event).
Proof.
  unfold messageListener.
  destruct (decide (source event = Some (window options))) as [Hs|Hs].
  - rewrite (bool_decide_eq_true_2 _ Hs).
    destruct (String.eqb_spec (event_origin event) (origin options)) as [Ho|Ho];
      simpl.
    + destruct (isJsonRpcResponse (data event)); simpl.
      * split; [intros [= <-]; auto | intros (_ & _ & _ & ->); reflexivity].
      * split; [discriminate | intros (_ & _ & ? & _); discriminate].
    + split; [discriminate | intros (_ & ? & _); contradiction].
  - rewrite (bool_decide_eq_false_2 _ Hs). simpl.
    split; [discriminate | intros (? & _); contradiction].
Qed.

(** X15. A listener registered on the channel is called for a message
    event exactly when the event comes from the channel's window, its
    origin is the channel's origin and its data is a JSON-RPC response; it
    is then called once, with the data, after the listeners registered
    before it. For any other event the listeners called are those called
    before the registration. *)
Theorem registered_listener_calls
  options (listener : Listener) (b : Browser) (event : MessageEvent) :
  let b' := snd (registerListener options listener b) in
  (source event = Some (window options)
   /\ event_origin event = origin options
   /\ isJsonRpcResponse (data event) = true ->
   dispatch isJsonRpcResponse b' event
   = (dispatch isJsonRpcResponse b event ++ [(listener, data event)])%list)
  /\ (source event <> Some (window options)
      \/ event_origin event <> origin options
      \/ isJsonRpcResponse (data event) = false ->
      dispatch isJsonRpcResponse b' event = dispatch isJsonRpcResponse b event).
Proof.
  intros b'. unfold b', dispatch, registerListener. simpl.
  rewrite omap_app. simpl.
  destruct (messageListener isJsonRpcResponse options listener event)
    as [call|] eqn:E.
  - apply messageListener_Some in E as (Hs & Ho & Hj & ->). split.
    + reflexivity.
    + intros [H | [H | H]]; [contradiction | contradiction | congruence].
  - split.
    + intros (Hs & Ho & Hj).
      assert (messageListener isJsonRpcResponse options listener event
              = Some (listener, data event)) as E'
        by (apply messageListener_Some; auto).
      congruence.
    + intros _. apply app_nil_r.
Qed.

Lemma filter_keeps_lower (c : nat) (ls : list (@MessageListener Listener)) :
  Forall (fun l => closure l < c) ls ->
  List.filter (fun l => negb (Nat.eqb (closure l) c)) ls = ls.
Proof.
  induction 1 as [|l ls Hl _ IH]; simpl; [reflexivity|].
  destruct (Nat.eqb_spec (closure l) c) as [E|_]; [lia|].
  simpl. now rewrite IH.
Qed.

(** X16. Calling the function [registerListener] returned takes the
    registration back: the listeners of the window are again the ones there
    were before, so every event calls what it called before. Calling it
    removes no other listener, and calling it twice is calling it once. *)
Theorem unregister_takes_back options (listener : Listener) (b : Browser) :
  well_numbered b ->
  let registration := registerListener options listener b in
  message_listeners (unregister (fst registration) (snd registration))
  = message_listeners b
  /\ (forall event : MessageEvent,
        dispatch isJsonRpcResponse
          (unregister (fst registration) (snd registration)) event
        = dispatch isJsonRpcResponse b event)
  /\ (forall c (b0 : Browser) l,
        In l (message_listeners b0) -> closure l <> c ->
        In l (message_listeners (unregister c b0)))
  /\ (forall c (b0 : Browser), unregister c (unregister c b0) = unregister c b0).
Proof.
  intros Hwf registration.
  assert (Hback : message_listeners
                    (unregister (fst registration) (snd registration))
                  = message_listeners b).
  { unfold registration, unregister, registerListener. simpl.
    rewrite List.filter_app. simpl. rewrite Nat.eqb_refl. simpl.
    rewrite app_nil_r. now apply filter_keeps_lower. }
  split; [exact Hback|]. split; [|split].
  - intros event. unfold dispatch. now rewrite Hback.
  - intros c b0 l Hin Hne. unfold unregister. simpl.
    apply List.filter_In. split; [exact Hin|].
    now destruct (Nat.eqb_spec (closure l) c).
  - intros c b0. unfold unregister. simpl. f_equal.
    induction (message_listeners b0) as [|l ls IH]; simpl; [reflexivity|].
    destruct (negb (Nat.eqb (closure l) c)) eqn:E; simpl;
      [rewrite E; now f_equal | exact IH].
Qed.

(** X17. [send] to a window that is not closed posts the request, once, to
    that window with the channel's origin as target origin, and changes
    nothing else; [send] to a closed window throws "Communication channel
    is closed" and posts nothing. After [close] on a window the script may
    close, [closed] is true and [send] throws. *)
Theorem send_posts_unless_closed options (request : JsonRequest) (b : Browser) :
  (window options ∉ closed_windows b ->
   send options request b
   = (inr tt,
      mkBrowser (closed_windows b) (script_closable b)
        (posted b ++ [(window options, request, origin options)])%list
        (message_listeners b) (next_closure b)))
  /\ (window options ∈ closed_windows b ->
      send options request b
      = (inl (PostMessageTransportError "Communication channel is closed"), b))
  /\ (window options ∈ script_closable b ->
      closed options (close options b) = true
      /\ send options request (close options b)
         = (inl (PostMessageTransportError "Communication channel is closed"),
            close options b)
      /\ posted (close options b) = posted b).
Proof.
  split; [|split].
  - intros Hopen. unfold send, closed.
    now rewrite (bool_decide_eq_false_2 _ Hopen).
  - intros Hclosed. unfold send, closed.
    now rewrite (bool_decide_eq_true_2 _ Hclosed).
  - intros Hclosable.
    assert (Hc : closed options (close options b) = true).
    { unfold close, closed. rewrite (bool_decide_eq_true_2 _ Hclosable). simpl.
      apply bool_decide_eq_true_2, elem_of_union_l, elem_of_singleton.
      reflexivity. }
    split; [exact Hc|]. split.
    + unfold send. now rewrite Hc.
    + unfold close. now rewrite (bool_decide_eq_true_2 _ Hclosable).
Qed.

End Channel.

Lemma registered_listener_calls_witness :
  dispatch is_response (snd (registerListener popup "second" browser))
    {| source := Some 1; event_origin := "https://wallet.example"; data := 4 |}
  = [("first", 4); ("second", 4)]
  /\ dispatch is_response (snd (registerListener popup "second" browser))
       {| source := Some 1; event_origin := "https://evil.example"; data := 4 |}
     = [].
Proof.
  split.
  - apply (proj1 (registered_listener_calls is_response popup "second" browser
                    {| source := Some 1;
                       event_origin := "https://wallet.example";
                       data := 4 |})).
    repeat split.
  - apply (proj2 (registered_listener_calls is_response popup "second" browser
                    {| source := Some 1;
                       event_origin := "https://evil.example";
                       data := 4 |})).
    right; left. discriminate.
Defined.

Lemma unregister_takes_back_witness :
  message_listeners
    (unregister (fst (registerListener popup "second" browser))
       (snd (registerListener popup "second" browser)))
  = message_listeners browser.
Proof.
  apply (unregister_takes_back is_response popup "second" browser).
  repeat constructor.
Defined.

Lemma send_posts_unless_closed_witness :
  send popup 7 browser
  = (inr tt,
     mkBrowser ∅ {[1]} [(1, 7, "https://wallet.example")]
       (message_listeners browser) 1)
  /\ send popup 7 (close popup browser)
     = (inl (PostMessageTransportError "Communication channel is closed"),
        close popup browser).
Proof.
  destruct (send_posts_unless_closed popup 7 browser) as (Hopen & _ & Hclose).
  split.
  - apply Hopen. apply not_elem_of_empty.
  - apply Hclose. apply elem_of_singleton. reflexivity.
Defined.

End PostMessageChannelProperties.
